(** * Resilience layer of the wallet API: retry executor and circuit breaker

    A shallow embedding of [src/utils/retry.js] (class [RetryUtility]):
    [isRetryable], [calculateDelay], [retry] and [createCircuitBreaker].

    Conventions of the embedding.
    - JavaScript numbers that count or compare milliseconds of the clock,
      attempts and failures are integers ([Z]); delays, which are multiplied
      by the backoff factor and perturbed by the jitter, are exact rationals
      ([Q]) standing for the doubles of the source.
    - A thrown value is an [Error] object: a [name], a string [message]
      (an absent message behaves like the empty string, both are falsy) and
      the optional properties [code] and [status].  Module [Any] repeats
      the executor for operations that may also reject with [undefined] or
      [null], on which the [catch] blocks themselves throw; on operations
      that reject with objects the two models agree.
    - Strings are byte strings; [toLowerCase] and [toUpperCase] act on the
      ASCII letters, so what depends on the case mapping is stated for
      strings of ASCII characters ([isAscii]).
    - What depends on the rounding of doubles is not stated: of the delays
      only bounds and values that are exact in doubles are.
    - A timestamp is [null] or a number; like the source's [&&], the model
      treats the number 0 as unset.
    - An asynchronous operation is a state transformer over the world it
      acts on; awaiting it yields how it settled.  Calls are sequential.
    - [Date.now()] and [Math.random()] are inputs: the time of a call is an
      argument of the call, the draws are supplied by an oracle.
    - Logging is left out, except where evaluating the arguments of a log
      call can itself throw. *)

From Stdlib Require Import ZArith QArith Qminmax List String Ascii Bool Lia Lqa.
Import ListNotations.
Open Scope string_scope.
Open Scope Z_scope.

(** ** JavaScript values and errors *)

Module Js.

(** The values an [Error]'s [code] or [status] property holds. *)
Inductive Value :=
| Undefined
| Num (n : Z)
| Str (s : string).

(** Truthiness, as [&&] and [if] test it. *)
Definition truthy (v : Value) : bool :=
  match v with
  | Undefined => false
  | Num n => negb (n =? 0)
  | Str s => negb (s =? "")%string
  end.

(** [v === w] on these values. *)
Definition strictEq (v w : Value) : bool :=
  match v, w with
  | Undefined, Undefined => true
  | Num a, Num b => a =? b
  | Str a, Str b => (a =? b)%string
  | _, _ => false
  end.

(** [codes.includes(v)] for an array of numbers. *)
Definition numIncludes (codes : list Z) (v : Value) : bool :=
  match v with
  | Num n => existsb (Z.eqb n) codes
  | _ => false
  end.

Record Error := mkError {
  name : string;
  message : string;
  code : Value;
  status : Value
}.

(** [new Error(msg)] *)
Definition newError (msg : string) : Error :=
  {| name := "Error"; message := msg; code := Undefined; status := Undefined |}.

(** How an awaited operation settles. *)
Inductive Settled (R : Type) :=
| Resolved (r : R)
| Rejected (e : Error).
Arguments Resolved {R} r.
Arguments Rejected {R} e.

(** How a call of the library completes. *)
Inductive Completion (R : Type) :=
| Returned (r : R)
| Threw (e : Error).
Arguments Returned {R} r.
Arguments Threw {R} e.

(** [String.prototype.toLowerCase] on the ASCII letters: JavaScript's
    function on strings of ASCII characters. *)
Definition lowerChar (c : ascii) : ascii :=
  let n := nat_of_ascii c in
  if (65 <=? n)%nat && (n <=? 90)%nat then ascii_of_nat (n + 32) else c.

Fixpoint toLowerCase (s : string) : string :=
  match s with
  | EmptyString => EmptyString
  | String c s' => String (lowerChar c) (toLowerCase s')
  end.

(** [s.includes(needle)] *)
Fixpoint includes (needle s : string) : bool :=
  String.prefix needle s ||
  match s with
  | EmptyString => false
  | String _ s' => includes needle s'
  end.

End Js.

Import Js.

(** ** The retryability predicate *)

Definition retryableStatusCodes : list Z := [429; 500; 502; 503; 504].

(** The network codes and the message keywords that [isRetryable] spells
    out one by one. *)
Definition networkCodes : list string :=
  ["ECONNRESET"; "ENOTFOUND"; "ECONNREFUSED"; "ETIMEDOUT"].

Definition retryableMessages : list string :=
  ["timeout"; "network"; "connection"; "service unavailable"; "rate limit";
   "quota"].

Definition isRetryable (error : Error) : bool :=
  if truthy (code error) && numIncludes retryableStatusCodes (code error)
  then true
  else if truthy (status error) && numIncludes retryableStatusCodes (status error)
  then true
  else if strictEq (code error) (Str "ECONNRESET")
          || strictEq (code error) (Str "ENOTFOUND")
          || strictEq (code error) (Str "ECONNREFUSED")
          || strictEq (code error) (Str "ETIMEDOUT")
  then true
  else if negb (message error =? "")%string
  then
    let message := toLowerCase (message error) in
    if includes "timeout" message
       || includes "network" message
       || includes "connection" message
       || includes "service unavailable" message
       || includes "rate limit" message
       || includes "quota" message
    then true
    else false
  else false.

(** [createMockGoogleApiError(code, message)] of the test helpers. *)
Definition createMockGoogleApiError (c : Z) (msg : string) : Error :=
  {| name := "Error"; message := msg; code := Num c; status := Num c |}.

(** ** The retry executor *)

Record RetryConfig := {
  maxAttempts : Z;
  initialDelay : Q;
  maxDelay : Q;
  backoffFactor : Q;
  jitter : bool
}.

(** The [options] argument: any subset of the configuration's properties. *)
Record RetryOptions := {
  optMaxAttempts : option Z;
  optInitialDelay : option Q;
  optMaxDelay : option Q;
  optBackoffFactor : option Q;
  optJitter : option bool
}.

Definition defaultOptions : RetryConfig :=
  {| maxAttempts := 3;
     initialDelay := 1000;
     maxDelay := 10000;
     backoffFactor := 2;
     jitter := true |}.

Definition orDefault {T : Type} (o : option T) (d : T) : T :=
  match o with Some v => v | None => d end.

(** [{ ...this.defaultOptions, ...options }] *)
Definition mergeOptions (options : RetryOptions) : RetryConfig :=
  {| maxAttempts := orDefault (optMaxAttempts options) (maxAttempts defaultOptions);
     initialDelay := orDefault (optInitialDelay options) (initialDelay defaultOptions);
     maxDelay := orDefault (optMaxDelay options) (maxDelay defaultOptions);
     backoffFactor := orDefault (optBackoffFactor options) (backoffFactor defaultOptions);
     jitter := orDefault (optJitter options) (jitter defaultOptions) |}.

(** [calculateDelay(baseDelay, config)]; [r] is what [Math.random()] returns
    when the jitter branch draws it. *)
Definition calculateDelay (baseDelay : Q) (config : RetryConfig) (r : Q) : Q :=
  if negb (jitter config) then baseDelay
  else
    let jitter := (baseDelay * 0.25 * (r - 0.5) * 2)%Q in
    Qmax 100 (baseDelay + jitter).

(** The [TypeError] of reading [.message] of [undefined]. *)
Definition undefinedMessageTypeError : Error :=
  {| name := "TypeError";
     message := "Cannot read properties of undefined (reading 'message')";
     code := Undefined;
     status := Undefined |}.

Section Retry.

(** The world the operation acts on and the values it resolves to. *)
Context {W R : Type}.

(** [operation()]: a zero-argument asynchronous action. *)
Variable operation : W -> Settled R * W.

(** The successive results of [Math.random()]. *)
Variable random : nat -> Q.

(** What a run of [retry] does to its surroundings.  [results] records how
    every invocation of the operation settled, oldest first, as a mock
    function does; [slept] the durations passed to [sleep]; [draws] the
    number of calls of [Math.random()]. *)
Record Env := {
  world : W;
  results : list (Settled R);
  slept : list Q;
  draws : nat
}.

Definition startEnv (w : W) : Env :=
  {| world := w; results := []; slept := []; draws := 0 |}.

(** [await operation()] *)
Definition invoke (h : Env) : Settled R * Env :=
  let (s, w') := operation (world h) in
  (s, {| world := w'; results := results h ++ [s];
         slept := slept h; draws := draws h |}).

(** [this.calculateDelay(delay, config)] followed by [await this.sleep(..)] *)
Definition delayAndSleep (delay : Q) (config : RetryConfig) (h : Env) : Env :=
  let actualDelay := calculateDelay delay config (random (draws h)) in
  {| world := world h; results := results h;
     slept := slept h ++ [actualDelay];
     draws := if jitter config then S (draws h) else draws h |}.

(** The code after the loop: the log call reads [lastError.message], then
    [throw lastError]. *)
Definition exhausted (lastError : option Error) (h : Env)
  : Completion R * Env :=
  match lastError with
  | None => (Threw undefinedMessageTypeError, h)
  | Some e => (Threw e, h)
  end.

(** The [for] loop from its test [attempt <= config.maxAttempts] on.  The
    fuel bounds the number of times the test is evaluated; [None] means it
    ran out. *)
Fixpoint attempts (fuel : nat) (config : RetryConfig) (attempt : Z)
    (delay : Q) (lastError : option Error) (h : Env)
  : option (Completion R * Env) :=
  match fuel with
  | O => None
  | S fuel' =>
      if attempt <=? maxAttempts config then
        match invoke h with
        | (Resolved result, h1) => Some (Returned result, h1)
        | (Rejected error, h1) =>
            if negb (isRetryable error) then Some (Threw error, h1)
            else if attempt =? maxAttempts config
            then Some (exhausted (Some error) h1)
            else
              let h2 := delayAndSleep delay config h1 in
              attempts fuel' config (attempt + 1)
                (Qmin (delay * backoffFactor config) (maxDelay config))
                (Some error) h2
        end
      else Some (exhausted lastError h)
  end.

(** Enough fuel for every evaluation of the loop test. *)
Definition retryFuel (config : RetryConfig) : nat :=
  S (Z.to_nat (maxAttempts config)).

(** [retry(operation, options)] *)
Definition retry (options : RetryOptions) (h : Env)
  : option (Completion R * Env) :=
  let config := mergeOptions options in
  attempts (retryFuel config) config 1 (initialDelay config) None h.

(** The world after [k] successive invocations of the operation from [w],
    and how these invocations settle, oldest first. *)
Fixpoint worldAfter (k : nat) (w : W) : W :=
  match k with
  | O => w
  | S k' => worldAfter k' (snd (operation w))
  end.

Fixpoint outcomes (k : nat) (w : W) : list (Settled R) :=
  match k with
  | O => []
  | S k' => fst (operation w) :: outcomes k' (snd (operation w))
  end.

(** The operation fails on every invocation with a retryable error. *)
Definition alwaysFailsRetryably : Prop :=
  forall w, exists e, fst (operation w) = Rejected e /\ isRetryable e = true.

End Retry.

Arguments Env : clear implicits.

(** ** The circuit breaker *)

Inductive CircuitState := CLOSED | OPEN | HALF_OPEN.

Definition isHalfOpen (s : CircuitState) : bool :=
  match s with HALF_OPEN => true | _ => false end.

Record BreakerConfig := {
  failureThreshold : Z;
  resetTimeout : Z;
  monitoringWindow : Z
}.

Record BreakerOptions := {
  optFailureThreshold : option Z;
  optResetTimeout : option Z;
  optMonitoringWindow : option Z
}.

(** The object literal [config] of [createCircuitBreaker]. *)
Definition breakerConfig (options : BreakerOptions) : BreakerConfig :=
  {| failureThreshold := orDefault (optFailureThreshold options) 5;
     resetTimeout := orDefault (optResetTimeout options) 60000;
     monitoringWindow := orDefault (optMonitoringWindow options) 300000 |}.

(** The variables the returned closure captures. *)
Record Breaker := {
  state : CircuitState;
  failures : Z;
  lastFailureTime : option Z;
  successes : Z
}.

(** Their values when [createCircuitBreaker] returns. *)
Definition newBreaker : Breaker :=
  {| state := CLOSED; failures := 0; lastFailureTime := None; successes := 0 |}.

(** [lastFailureTime && (now - lastFailureTime) > limit]: [null] and the
    timestamp 0 are falsy. *)
Definition elapsedExceeds (now : Z) (last : option Z) (limit : Z) : bool :=
  match last with
  | None => false
  | Some t => negb (t =? 0) && (limit <? now - t)
  end.

Definition circuitOpenError : Error :=
  newError "Circuit breaker is OPEN - operation temporarily disabled".

Section CircuitBreaker.

Context {A W R : Type}.

(** [operation(...args)] *)
Variable operation : A -> W -> Settled R * W.

Variable config : BreakerConfig.

(** The operation's world together with the record of how each of its
    invocations settled, oldest first. *)
Record Host := {
  hworld : W;
  hresults : list (Settled R)
}.

Definition startHost (w : W) : Host := {| hworld := w; hresults := [] |}.

(** [await operation(...args)] *)
Definition invokeWith (args : A) (h : Host) : Settled R * Host :=
  let (s, w') := operation args (hworld h) in
  (s, {| hworld := w'; hresults := hresults h ++ [s] |}).

(** The first [if]: the monitoring window has passed. *)
Definition monitor (now : Z) (b : Breaker) : Breaker :=
  if elapsedExceeds now (lastFailureTime b) (monitoringWindow config)
  then {| state := CLOSED; failures := 0;
          lastFailureTime := lastFailureTime b; successes := 0 |}
  else b.

(** The second [if]: an open circuit either becomes half-open or rejects
    the call ([None]). *)
Definition gate (now : Z) (b : Breaker) : option Breaker :=
  match state b with
  | OPEN =>
      if elapsedExceeds now (lastFailureTime b) (resetTimeout config)
      then Some {| state := HALF_OPEN; failures := failures b;
                   lastFailureTime := lastFailureTime b; successes := 0 |}
      else None
  | _ => Some b
  end.

(** The [try] block after the operation resolved. *)
Definition onSuccess (b : Breaker) : Breaker :=
  match state b with
  | HALF_OPEN =>
      let successes' := successes b + 1 in
      if 2 <=? successes'
      then {| state := CLOSED; failures := 0;
              lastFailureTime := lastFailureTime b; successes := successes' |}
      else {| state := HALF_OPEN; failures := failures b;
              lastFailureTime := lastFailureTime b; successes := successes' |}
  | _ => b
  end.

(** The [catch] block. *)
Definition onFailure (now : Z) (b : Breaker) : Breaker :=
  let failures' := failures b + 1 in
  {| state := if isHalfOpen (state b) || (failureThreshold config <=? failures')
              then OPEN else state b;
     failures := failures';
     lastFailureTime := Some now;
     successes := successes b |}.

(** One call of the closure [createCircuitBreaker] returns, made when
    [Date.now()] is [now]. *)
Definition call (now : Z) (args : A) (b : Breaker) (h : Host)
  : Completion R * Breaker * Host :=
  let b1 := monitor now b in
  match gate now b1 with
  | None => (Threw circuitOpenError, b1, h)
  | Some b2 =>
      match invokeWith args h with
      | (Resolved result, h') => (Returned result, onSuccess b2, h')
      | (Rejected error, h') => (Threw error, onFailure now b2, h')
      end
  end.

(** Successive calls, each with its time and arguments. *)
Fixpoint calls (cs : list (Z * A)) (b : Breaker) (h : Host)
  : list (Completion R) * Breaker * Host :=
  match cs with
  | [] => ([], b, h)
  | (now, args) :: cs' =>
      let '(c, b1, h1) := call now args b h in
      let '(out, b2, h2) := calls cs' b1 h1 in
      (c :: out, b2, h2)
  end.

End CircuitBreaker.

Arguments Host : clear implicits.

(** A mock operation that settles the way a script says, invocation after
    invocation, and as the last entry says from then on
    ([mockRejectedValue], [mockResolvedValueOnce]); its world counts the
    invocations. *)
Definition scripted {R : Type} (script : list (Settled R)) (last : Settled R)
  : nat -> Settled R * nat :=
  fun n => (nth n script last, S n).

(** [jest.fn().mockRejectedValue(createMockGoogleApiError(code))] *)
Definition alwaysRejects (c : Z) : nat -> Settled string * nat :=
  scripted [] (Rejected (createMockGoogleApiError c "Mock Google API Error")).

(** Fails twice with status 503, then resolves. *)
Definition failsTwice : nat -> Settled string * nat :=
  scripted
    [Rejected (createMockGoogleApiError 503 "Service unavailable");
     Rejected (createMockGoogleApiError 503 "Service unavailable")]
    (Resolved "success").

(** The same mocks as operations called without arguments through a
    breaker. *)
Definition guarded {R : Type} (f : nat -> Settled R * nat)
  : unit -> nat -> Settled R * nat :=
  fun _ => f.

(** The number of calls of a run that threw. *)
Fixpoint rejections {R : Type} (out : list (Completion R)) : Z :=
  match out with
  | [] => 0
  | Threw _ :: out' => 1 + rejections out'
  | Returned _ :: out' => rejections out'
  end.

(** The breaker is called at a time when the monitoring window has not
    passed. *)
Definition withinWindow (config : BreakerConfig) (now : Z) (b : Breaker)
  : Prop :=
  elapsedExceeds now (lastFailureTime b) (monitoringWindow config) = false.

(** [new Error('Test error')] and the mocks of the breaker's unit tests. *)
Definition testError : Error := newError "Test error".

Definition alwaysThrows : unit -> nat -> Settled string * nat :=
  guarded (scripted [] (Rejected testError)).

Definition throwsTwice : unit -> nat -> Settled string * nat :=
  guarded (scripted [Rejected testError; Rejected testError]
                    (Resolved "success")).

(** Fails, succeeds, and fails from then on. *)
Definition flaky : unit -> nat -> Settled string * nat :=
  guarded (scripted [Rejected testError; Resolved "success"]
                    (Rejected testError)).

(** [{ failureThreshold: n }] and [{ failureThreshold: n, resetTimeout: ms }] *)
Definition withThreshold (n : Z) : BreakerConfig :=
  breakerConfig {| optFailureThreshold := Some n; optResetTimeout := None;
                   optMonitoringWindow := None |}.

Definition withThresholdAndReset (n ms : Z) : BreakerConfig :=
  breakerConfig {| optFailureThreshold := Some n; optResetTimeout := Some ms;
                   optMonitoringWindow := None |}.

(** A [Math.random()] that always returns one half. *)
Definition halves : nat -> Q := fun _ => 0.5%Q.

(** ** Vocabulary of the specification *)

(** The options of the end-to-end scenario. *)
Definition scenarioOptions : RetryOptions :=
  {| optMaxAttempts := Some 3; optInitialDelay := Some 100%Q;
     optMaxDelay := None; optBackoffFactor := Some 2%Q;
     optJitter := Some false |}.

(** [{ maxAttempts: N }] *)
Definition onlyMaxAttempts (N : Z) : RetryOptions :=
  {| optMaxAttempts := Some N; optInitialDelay := None; optMaxDelay := None;
     optBackoffFactor := None; optJitter := None |}.

(** The string holds ASCII characters only.  On such strings the model's
    [toLowerCase] and [toUpperCase] are JavaScript's; other characters are
    left as they are by the model, while JavaScript maps some of them to
    ASCII letters (the Kelvin sign to "k", the dotless i to "I"). *)
Fixpoint isAscii (s : string) : bool :=
  match s with
  | EmptyString => true
  | String c s' => (nat_of_ascii c <? 128)%nat && isAscii s'
  end.

(** A message contains a keyword up to the case of its letters. *)
Definition containsNoCase (keyword msg : string) : Prop :=
  exists pre mid post,
    msg = (pre ++ mid ++ post)%string /\ toLowerCase mid = keyword.

(** The status codes the unit tests expect not to be retried. *)
Definition nonRetryableStatusCodes : list Z := [400; 401; 403; 404; 409].

(** ** The rest of the retry utility and what it calls *)

(** A recorded invocation that was rejected with a retryable error. *)
Definition retryableRejection {R : Type} (s : Settled R) : Prop :=
  match s with
  | Rejected e => isRetryable e = true
  | Resolved _ => False
  end.

(** The value of [delay] in [retry] before the sleep number [k] (from 0):
    [initialDelay], then [Math.min(delay * backoffFactor, maxDelay)]. *)
Fixpoint baseDelay (config : RetryConfig) (k : nat) : Q :=
  match k with
  | O => initialDelay config
  | S k' => Qmin (baseDelay config k' * backoffFactor config) (maxDelay config)
  end.

(** The time a run of [retry] spent sleeping. *)
Definition totalSleep (ds : list Q) : Q := fold_right Qplus 0%Q ds.

(** *** [logger.interpretGoogleApiError] *)

Module Logger.

Record ErrorInfo := {
  type : string;
  message : string;
  code : Value;
  status : Value;
  retryable : bool;
  userMessage : string
}.

(** The three assignments of a [case] of the [switch]. *)
Definition classify (t u : string) (r : bool) (info : ErrorInfo) : ErrorInfo :=
  {| type := t; message := message info; code := code info;
     status := status info; retryable := r; userMessage := u |}.

(** The two assignments of a message pattern that leaves [retryable]. *)
Definition relabel (t u : string) (info : ErrorInfo) : ErrorInfo :=
  classify t u (retryable info) info.

(** [a || b] *)
Definition orElse (a b : Value) : Value := if truthy a then a else b.

(** [switch (statusCode)]: the cases are tried in order and compare with
    [===]. *)
Definition byStatusCode (statusCode : Value) (info : ErrorInfo) : ErrorInfo :=
  if strictEq statusCode (Num 400)
  then classify "BAD_REQUEST" "Invalid request data" false info
  else if strictEq statusCode (Num 401)
  then classify "UNAUTHORIZED" "Authentication failed" false info
  else if strictEq statusCode (Num 403)
  then classify "FORBIDDEN" "Access denied" false info
  else if strictEq statusCode (Num 404)
  then classify "NOT_FOUND" "Resource not found" false info
  else if strictEq statusCode (Num 409)
  then classify "CONFLICT" "Resource already exists" false info
  else if strictEq statusCode (Num 429)
  then classify "RATE_LIMITED" "Too many requests, please try again later"
         true info
  else if strictEq statusCode (Num 500)
  then classify "INTERNAL_SERVER_ERROR" "Server error, please try again"
         true info
  else if strictEq statusCode (Num 502)
          || strictEq statusCode (Num 503)
          || strictEq statusCode (Num 504)
  then classify "SERVICE_UNAVAILABLE" "Service temporarily unavailable"
         true info
  else info.

(** The chain of message patterns, on the lower-cased message. *)
Definition byMessage (msg : string) (info : ErrorInfo) : ErrorInfo :=
  if includes "not found" msg
  then relabel "RESOURCE_NOT_FOUND" "The requested resource was not found" info
  else if includes "already exists" msg
  then relabel "RESOURCE_EXISTS" "Resource already exists" info
  else if includes "invalid" msg
  then relabel "INVALID_DATA" "Invalid data provided" info
  else if includes "permission" msg || includes "access" msg
  then relabel "ACCESS_DENIED" "Access denied" info
  else if includes "quota" msg || includes "limit" msg
  then classify "QUOTA_EXCEEDED" "API quota exceeded" true info
  else if includes "class id" msg
  then relabel "MISSING_CLASS_ID" "Missing or invalid class ID" info
  else info.

Definition interpretGoogleApiError (error : Error) : ErrorInfo :=
  let errorInfo :=
    {| type := "UNKNOWN_ERROR";
       message := Js.message error;
       code := Js.code error;
       status := Js.status error;
       retryable := false;
       userMessage := "An unexpected error occurred" |} in
  let errorInfo :=
    if truthy (orElse (Js.code error) (Js.status error))
    then byStatusCode (orElse (Js.code error) (Js.status error)) errorInfo
    else errorInfo in
  if negb (Js.message error =? "")%string
  then byMessage (toLowerCase (Js.message error)) errorInfo
  else errorInfo.

End Logger.

(** *** The level filter of the logger *)

Module LogLevel.

(** [String.prototype.toUpperCase] on the ASCII letters: JavaScript's
    function on strings of ASCII characters. *)
Definition upperChar (c : ascii) : ascii :=
  let n := nat_of_ascii c in
  if (97 <=? n)%nat && (n <=? 122)%nat then ascii_of_nat (n - 32) else c.

Fixpoint toUpperCase (s : string) : string :=
  match s with
  | EmptyString => EmptyString
  | String c s' => String (upperChar c) (toUpperCase s')
  end.

(** [this.levels[name]]: [undefined] for any other name. *)
Definition levels (name : string) : option Z :=
  if (name =? "ERROR")%string then Some 0
  else if (name =? "WARN")%string then Some 1
  else if (name =? "INFO")%string then Some 2
  else if (name =? "DEBUG")%string then Some 3
  else None.

(** [this.currentLevel], from [process.env.LOG_LEVEL]. *)
Definition currentLevel (LOG_LEVEL : option string) : option Z :=
  match LOG_LEVEL with
  | None => levels "INFO"
  | Some v => if (v =? "")%string then levels "INFO"
              else levels (toUpperCase v)
  end.

(** [shouldLog(level)]: a comparison with [undefined] is false. *)
Definition shouldLog (LOG_LEVEL : option string) (level : string) : bool :=
  match levels level, currentLevel LOG_LEVEL with
  | Some l, Some c => l <=? c
  | _, _ => false
  end.

End LogLevel.

(** *** [retryGoogleApi] *)

(** The [context] of a Google API call: its [operation] property and the
    other properties it carries. *)
Record WalletContext := {
  ctxOperation : option string;
  ctxData : list (string * string)
}.

(** [context.operation || 'unknown'] *)
Definition operationName (context : WalletContext) : string :=
  match ctxOperation context with
  | Some n => if (n =? "")%string then "unknown" else n
  | None => "unknown"
  end.

(** The arguments of one call of [logger.logGoogleWalletOperation]. *)
Record WalletEntry := {
  weOperation : string;
  weContext : WalletContext;
  weSuccess : bool;
  weError : option Logger.ErrorInfo;
  weDuration : Z
}.

Section Wrapped.

Context {W R E : Type}.

(** The successive results of [Date.now()]. *)
Variable clock : nat -> Z.

(** What is logged after a success and after a failure, given the
    duration. *)
Variable onSuccessEntry : R -> Z -> E.
Variable onFailureEntry : Error -> Z -> E.

Variable operation : W -> Settled R * W.

(** The world of a wrapped operation: the world of the operation, the calls
    of the logger so far, and the number of readings of the clock. *)
Record Logged := {
  inner : W;
  entries : list E;
  clockReads : nat
}.

(** [wrappedOperation]: time the operation, log how it settled, and settle
    the same way. *)
Definition wrappedOperation (lw : Logged) : Settled R * Logged :=
  let startTime := clock (clockReads lw) in
  match operation (inner lw) with
  | (Resolved result, w') =>
      let duration := clock (S (clockReads lw)) - startTime in
      (Resolved result,
       {| inner := w';
          entries := entries lw ++ [onSuccessEntry result duration];
          clockReads := S (S (clockReads lw)) |})
  | (Rejected error, w') =>
      let duration := clock (S (clockReads lw)) - startTime in
      (Rejected error,
       {| inner := w';
          entries := entries lw ++ [onFailureEntry error duration];
          clockReads := S (S (clockReads lw)) |})
  end.

(** The entry a settled invocation leaves, given its duration. *)
Definition entryOf (s : Settled R) (duration : Z) : E :=
  match s with
  | Resolved result => onSuccessEntry result duration
  | Rejected error => onFailureEntry error duration
  end.

End Wrapped.

Arguments Logged : clear implicits.

Definition googleApiOptions : RetryOptions :=
  {| optMaxAttempts := Some 3; optInitialDelay := Some 1000%Q;
     optMaxDelay := Some 5000%Q; optBackoffFactor := Some 2%Q;
     optJitter := Some true |}.

Definition walletSuccess {R : Type} (context : WalletContext)
  (_ : R) (duration : Z) : WalletEntry :=
  {| weOperation := operationName context; weContext := context;
     weSuccess := true; weError := None; weDuration := duration |}.

Definition walletFailure (context : WalletContext)
  (error : Error) (duration : Z) : WalletEntry :=
  {| weOperation := operationName context; weContext := context;
     weSuccess := false;
     weError := Some (Logger.interpretGoogleApiError error);
     weDuration := duration |}.

(** [retryGoogleApi(operation, context)] *)
Definition retryGoogleApi {W R : Type} (clock : nat -> Z) (random : nat -> Q)
    (operation : W -> Settled R * W) (context : WalletContext)
    (h : Env (Logged W WalletEntry) R)
  : option (Completion R * Env (Logged W WalletEntry) R) :=
  retry (wrappedOperation clock (walletSuccess context)
           (walletFailure context) operation)
    random googleApiOptions h.

(** The world in which a wrapped operation starts with an empty log. *)
Definition startLogged {W E : Type} (w : W) : Logged W E :=
  {| inner := w; entries := []; clockReads := 0 |}.

(** *** A caller: [getClass] of the loyalty class service *)

Module GoogleApi.

(** The response of the wallet API: an object with a [data] property. *)
Record Response (D : Type) := { data : D }.
Arguments data {D} _.

End GoogleApi.

Module LoyaltyClass.

(** The object [getClass] returns. *)
Record Result (D : Type) := {
  success : bool;
  data : option D;
  error : option string;
  message : string
}.
Arguments success {D} _.
Arguments data {D} _.
Arguments error {D} _.
Arguments message {D} _.

Section GetClass.

Context {W D : Type}.
Variable clock : nat -> Z.
Variable random : nat -> Q.

(** [client.loyaltyclass.get({ resourceId })] behind [getClient()]. *)
Variable get : string -> W -> Settled (GoogleApi.Response D) * W.

Definition getContext (classId : string) : WalletContext :=
  {| ctxOperation := Some "getLoyaltyClass";
     ctxData := [("classId", classId)] |}.

(** [getClass(classId)]; [logger.googleApiError] is
    [interpretGoogleApiError] followed by a log call. *)
Definition getClass (classId : string)
    (h : Env (Logged W WalletEntry) (GoogleApi.Response D))
  : option (Result D * Env (Logged W WalletEntry) (GoogleApi.Response D)) :=
  match retryGoogleApi clock random (get classId) (getContext classId) h with
  | None => None
  | Some (Returned result, h') =>
      Some ({| success := true;
               data := Some (GoogleApi.data result);
               error := None;
               message := "Loyalty class retrieved successfully" |}, h')
  | Some (Threw err, h') =>
      let errorDetails := Logger.interpretGoogleApiError err in
      if strictEq (Js.code err) (Num 404)
      then Some ({| success := false; data := None;
                    error := Some "Class not found";
                    message := "Loyalty class does not exist" |}, h')
      else Some ({| success := false; data := None;
                    error := Some (Logger.type errorDetails);
                    message := Logger.userMessage errorDetails |}, h')
  end.

End GetClass.

End LoyaltyClass.

(** The words that decide either verdict on an error's message: the
    keywords of [isRetryable] ("rate limit" contains "limit") and those of
    the quota pattern of [interpretGoogleApiError]. *)
Definition verdictKeywords : list string :=
  ["timeout"; "network"; "connection"; "service unavailable"; "quota";
   "limit"].

(** What every breaker reached by calls from a new one satisfies. *)
Definition wellFormed (config : BreakerConfig) (b : Breaker) : Prop :=
  0 <= failures b /\
  0 <= successes b <= 2 /\
  (state b = OPEN -> 1 <= failures b) /\
  (state b = HALF_OPEN -> successes b = 1 /\ 1 <= failures b) /\
  (state b = CLOSED -> failures b < failureThreshold config) /\
  (1 <= failures b -> exists t, lastFailureTime b = Some t).

(** Mocks for the wrappers and for [getClass]: a clock that advances 10 ms
    per reading, an API that knows no class, and a breaker configuration
    whose monitoring window is shorter than its reset timeout. *)
Definition ticks : nat -> Z := fun n => 10 * Z.of_nat n.

Definition missingClass
  : string -> nat -> Settled (GoogleApi.Response string) * nat :=
  fun _ => scripted [] (Rejected (createMockGoogleApiError 404 "Class missing")).

Definition shortWindow : BreakerConfig :=
  breakerConfig {| optFailureThreshold := Some 2;
                   optResetTimeout := Some 1000;
                   optMonitoringWindow := Some 500 |}.

Definition socketError : Error :=
  {| name := "Error"; message := "socket hang up";
     code := Str "ECONNRESET"; status := Undefined |}.

(** ** Operations that reject with [undefined] or [null]

    The model above takes every rejection to carry an [Error] object.  This
    one lets an operation reject with [undefined] or [null] as well: in
    [retry] the [catch] block then fails on [error.message] before anything
    else, and in [retryGoogleApi] the wrapper fails in
    [interpretGoogleApiError] before it logs. *)

Inductive Nullish := JsUndefined | JsNull.

(** The [TypeError] of reading a property of [undefined] or [null]. *)
Definition propertyTypeError (n : Nullish) (property : string) : Error :=
  {| name := "TypeError";
     message :=
       "Cannot read properties of "
       ++ match n with JsUndefined => "undefined" | JsNull => "null" end
       ++ " (reading '" ++ property ++ "')";
     code := Undefined;
     status := Undefined |}.

Module Any.

(** A thrown value. *)
Inductive Thrown :=
| Nothing (n : Nullish)
| Object (e : Error).

Inductive Settled (R : Type) :=
| Resolved (r : R)
| Rejected (v : Thrown).
Arguments Resolved {R} r.
Arguments Rejected {R} v.

Inductive Completion (R : Type) :=
| Returned (r : R)
| Threw (v : Thrown).
Arguments Returned {R} r.
Arguments Threw {R} v.

Section Retry.

Context {W R : Type}.
Variable operation : W -> Settled R * W.
Variable random : nat -> Q.

Record Env := {
  world : W;
  results : list (Settled R);
  slept : list Q;
  draws : nat
}.

Definition startEnv (w : W) : Env :=
  {| world := w; results := []; slept := []; draws := 0 |}.

(** [await operation()] *)
Definition invoke (h : Env) : Settled R * Env :=
  let (s, w') := operation (world h) in
  (s, {| world := w'; results := results h ++ [s];
         slept := slept h; draws := draws h |}).

(** [this.calculateDelay(delay, config)] followed by [await this.sleep(..)] *)
Definition delayAndSleep (delay : Q) (config : RetryConfig) (h : Env) : Env :=
  let actualDelay := calculateDelay delay config (random (draws h)) in
  {| world := world h; results := results h;
     slept := slept h ++ [actualDelay];
     draws := if jitter config then S (draws h) else draws h |}.

(** The code after the loop: the log call reads [lastError.message], then
    [throw lastError]. *)
Definition exhausted (lastError : Thrown) (h : Env) : Completion R * Env :=
  match lastError with
  | Nothing n => (Threw (Object (propertyTypeError n "message")), h)
  | Object _ => (Threw lastError, h)
  end.

(** The [for] loop.  In the [catch] block the first log call evaluates
    [error.message], which throws when [error] is [undefined] or [null]. *)
Fixpoint attempts (fuel : nat) (config : RetryConfig) (attempt : Z)
    (delay : Q) (lastError : Thrown) (h : Env)
  : option (Completion R * Env) :=
  match fuel with
  | O => None
  | S fuel' =>
      if attempt <=? maxAttempts config then
        match invoke h with
        | (Resolved result, h1) => Some (Returned result, h1)
        | (Rejected error, h1) =>
            match error with
            | Nothing n =>
                Some (Threw (Object (propertyTypeError n "message")), h1)
            | Object e =>
                if negb (isRetryable e) then Some (Threw error, h1)
                else if attempt =? maxAttempts config
                then Some (exhausted error h1)
                else
                  let h2 := delayAndSleep delay config h1 in
                  attempts fuel' config (attempt + 1)
                    (Qmin (delay * backoffFactor config) (maxDelay config))
                    error h2
            end
        end
      else Some (exhausted lastError h)
  end.

(** [retry(operation, options)]; [lastError] starts out [undefined]. *)
Definition retry (options : RetryOptions) (h : Env)
  : option (Completion R * Env) :=
  let config := mergeOptions options in
  attempts (retryFuel config) config 1 (initialDelay config)
    (Nothing JsUndefined) h.

(** The world after [k] successive invocations of the operation from [w],
    and how these invocations settle, oldest first. *)
Fixpoint worldAfter (k : nat) (w : W) : W :=
  match k with
  | O => w
  | S k' => worldAfter k' (snd (operation w))
  end.

Fixpoint outcomes (k : nat) (w : W) : list (Settled R) :=
  match k with
  | O => []
  | S k' => fst (operation w) :: outcomes k' (snd (operation w))
  end.


(** [wrappedOperation] of [retryGoogleApi]: a rejection with [undefined] or
    [null] makes [interpretGoogleApiError] throw on [error.message], after
    the second reading of the clock and before the log call. *)
Definition wrappedOperation (clock : nat -> Z) (context : WalletContext)
    (lw : Logged W WalletEntry) : Settled R * Logged W WalletEntry :=
  let startTime := clock (clockReads lw) in
  match operation (inner lw) with
  | (Resolved result, w') =>
      let duration := clock (S (clockReads lw)) - startTime in
      (Resolved result,
       {| inner := w';
          entries := entries lw ++ [walletSuccess context result duration];
          clockReads := S (S (clockReads lw)) |})
  | (Rejected (Object e), w') =>
      let duration := clock (S (clockReads lw)) - startTime in
      (Rejected (Object e),
       {| inner := w';
          entries := entries lw ++ [walletFailure context e duration];
          clockReads := S (S (clockReads lw)) |})
  | (Rejected (Nothing n), w') =>
      (Rejected (Object (propertyTypeError n "message")),
       {| inner := w';
          entries := entries lw;
          clockReads := S (S (clockReads lw)) |})
  end.

End Retry.

Arguments Env : clear implicits.


(** An invocation that was rejected with a retryable error. *)
Definition retryableRejection {R : Type} (s : Settled R) : Prop :=
  match s with
  | Rejected (Object e) => isRetryable e = true
  | _ => False
  end.

(** [retryGoogleApi(operation, context)] *)
Definition retryGoogleApi {W R : Type} (clock : nat -> Z) (random : nat -> Q)
    (operation : W -> Settled R * W) (context : WalletContext)
    (h : Env (Logged W WalletEntry) R)
  : option (Completion R * Env (Logged W WalletEntry) R) :=
  retry (wrappedOperation operation clock context) random googleApiOptions h.

(** A run of [retry] on the wrapped operation, seen from the operation. *)
Definition unwrapEnv {W R E : Type} (h : Env (Logged W E) R) : Env W R :=
  {| world := inner (world h); results := results h;
     slept := slept h; draws := draws h |}.





(** The embedding of the operations that reject with [Error] objects. *)
Definition ofSettled {R : Type} (s : Js.Settled R) : Settled R :=
  match s with
  | Js.Resolved r => Resolved r
  | Js.Rejected e => Rejected (Object e)
  end.

Definition ofCompletion {R : Type} (c : Js.Completion R) : Completion R :=
  match c with
  | Js.Returned r => Returned r
  | Js.Threw e => Threw (Object e)
  end.

Definition ofOperation {W R : Type} (operation : W -> Js.Settled R * W)
  : W -> Settled R * W :=
  fun w => (ofSettled (fst (operation w)), snd (operation w)).

End Any.

(** The run of the first model as a run of this one. *)
Definition anyEnv {W R : Type} (h : Env W R) : Any.Env W R :=
  {| Any.world := world h;
     Any.results := map Any.ofSettled (results h);
     Any.slept := slept h;
     Any.draws := draws h |}.


(** * Properties *)

(** ** Strings *)

Section StringFacts.

Local Open Scope string_scope.

Lemma prefix_append (n post : string) : String.prefix n (n ++ post) = true.
Proof.
  induction n as [|c n IH]; simpl.
  - now destruct post.
  - destruct (ascii_dec c c) as [_|ne]; [exact IH | now elim ne].
Qed.

Lemma prefix_split (n s : string) :
  String.prefix n s = true -> exists post, s = n ++ post.
Proof.
  revert s; induction n as [|c n IH]; intros s H.
  - now exists s.
  - destruct s as [|d s]; simpl in H; [discriminate|].
    destruct (ascii_dec c d) as [->|]; [|discriminate].
    destruct (IH s H) as [post ->]. now exists post.
Qed.

Lemma includes_prefix (n s : string) :
  String.prefix n s = true -> includes n s = true.
Proof. intros H. destruct s; cbn [includes]; now rewrite H. Qed.

Lemma includes_append (n pre post : string) :
  includes n (pre ++ n ++ post) = true.
Proof.
  induction pre as [|c pre IH].
  - change ("" ++ n ++ post) with (n ++ post).
    apply includes_prefix, prefix_append.
  - change (String c pre ++ n ++ post) with (String c (pre ++ n ++ post)).
    cbn [includes]. rewrite IH. apply orb_true_r.
Qed.

Lemma includes_split (n s : string) :
  includes n s = true -> exists pre post, s = pre ++ n ++ post.
Proof.
  induction s as [|c s IH]; cbn [includes]; intros H;
    apply orb_true_iff in H as [H|H]; try discriminate.
  - destruct (prefix_split _ _ H) as [post E]. now exists "", post.
  - destruct (prefix_split _ _ H) as [post E]. now exists "", post.
  - destruct (IH H) as (pre & post & ->). now exists (String c pre), post.
Qed.

Lemma toLowerCase_append (a b : string) :
  toLowerCase (a ++ b) = toLowerCase a ++ toLowerCase b.
Proof. induction a as [|c a IH]; simpl; [reflexivity | now rewrite IH]. Qed.

Lemma toLowerCase_split (s a b : string) :
  toLowerCase s = a ++ b ->
  exists a' b', s = a' ++ b' /\ toLowerCase a' = a /\ toLowerCase b' = b.
Proof.
  revert s; induction a as [|c a IH]; intros s H.
  - now exists "", s.
  - destruct s as [|d s]; simpl in H; [discriminate|].
    injection H as Hc Hs.
    destruct (IH s Hs) as (a' & b' & -> & Ha & Hb).
    exists (String d a'), b'. simpl. now rewrite Hc, Ha.
Qed.

End StringFacts.

(** What [message.toLowerCase().includes(keyword)] decides. *)
Lemma includes_toLowerCase (keyword msg : string) :
  includes keyword (toLowerCase msg) = true <-> containsNoCase keyword msg.
Proof.
  split.
  - intros H. apply includes_split in H as (pre & post & E).
    apply toLowerCase_split in E as (pre' & rest & -> & _ & E).
    apply toLowerCase_split in E as (mid & post' & -> & E & _).
    now exists pre', mid, post'.
  - intros (pre & mid & post & -> & <-).
    rewrite !toLowerCase_append. apply includes_append.
Qed.

(** ** The retryability predicate *)

Lemma isRetryable_numeric (e : Error) (n : Z) :
  In n retryableStatusCodes -> code e = Num n \/ status e = Num n ->
  isRetryable e = true.
Proof.
  intros Hn [H|H]; unfold isRetryable.
  - rewrite H. simpl in Hn.
    repeat (destruct Hn as [<-|Hn]; [reflexivity|]). contradiction.
  - destruct (truthy (code e) && _); [reflexivity|].
    rewrite H. simpl in Hn.
    repeat (destruct Hn as [<-|Hn]; [reflexivity|]). contradiction.
Qed.

Lemma isRetryable_network (e : Error) (c : string) :
  In c networkCodes -> code e = Str c -> isRetryable e = true.
Proof.
  intros Hc H. unfold isRetryable. rewrite H. cbn [truthy numIncludes andb].
  rewrite andb_false_r.
  destruct (truthy (status e) && _); [reflexivity|]. simpl in Hc.
  repeat (destruct Hc as [<-|Hc]; [reflexivity|]). contradiction.
Qed.

Lemma isRetryable_message (e : Error) (kw : string) :
  In kw retryableMessages -> containsNoCase kw (message e) ->
  isRetryable e = true.
Proof.
  intros Hkw Hc. apply includes_toLowerCase in Hc. unfold isRetryable.
  destruct (truthy (code e) && _); [reflexivity|].
  destruct (truthy (status e) && _); [reflexivity|].
  destruct (strictEq (code e) _ || _ || _ || _); [reflexivity|].
  destruct (message e =? "")%string eqn:E.
  - apply String.eqb_eq in E. rewrite E in Hc. simpl in Hkw.
    repeat (destruct Hkw as [<-|Hkw]; [vm_compute in Hc; discriminate|]).
    contradiction.
  - cbn [negb]. cbv zeta. simpl in Hkw.
    repeat (destruct Hkw as [<-|Hkw];
            [rewrite Hc, ?orb_true_r; reflexivity|]).
    contradiction.
Qed.

Lemma isRetryable_other (e : Error) (n : Z) :
  In n nonRetryableStatusCodes -> code e = Num n ->
  (forall m, In m retryableStatusCodes -> status e <> Num m) ->
  (forall kw, In kw retryableMessages -> ~ containsNoCase kw (message e)) ->
  isRetryable e = false.
Proof.
  intros Hn Hcode Hstatus Hmsg. unfold isRetryable.
  assert (Hs : truthy (status e)
               && numIncludes retryableStatusCodes (status e) = false).
  { destruct (status e) as [|m|s] eqn:E; [reflexivity| |apply andb_false_r].
    apply andb_false_iff; right. cbn [numIncludes].
    destruct (existsb (Z.eqb m) retryableStatusCodes) eqn:X; [|reflexivity].
    apply existsb_exists in X as (x & Hx & Hmx).
    apply Z.eqb_eq in Hmx; subst x. now elim (Hstatus m Hx). }
  assert (Hk : forall kw, In kw retryableMessages ->
                          includes kw (toLowerCase (message e)) = false).
  { intros kw Hkw. destruct (includes kw _) eqn:X; [|reflexivity].
    apply includes_toLowerCase in X. now elim (Hmsg kw Hkw). }
  rewrite Hs, Hcode.
  replace (truthy (Num n) && numIncludes retryableStatusCodes (Num n))
    with false
    by (simpl in Hn;
        repeat (destruct Hn as [<-|Hn]; [reflexivity|]); contradiction).
  cbn [strictEq orb]. destruct (negb _); [|reflexivity]. cbv zeta.
  rewrite !Hk; [reflexivity| | | | | |]; simpl; tauto.
Qed.

(** C5, as the code has it: [isRetryable] is true for every error with a
    numeric code or status in 429, 500, 502, 503, 504, for every error with
    one of the four network codes, and for every error whose message
    contains one of the six keywords up to case; it is false for an error
    whose code is 400, 401, 403, 404 or 409 provided its status is not one of
    the retryable numbers and its message, made of ASCII characters, contains
    none of the keywords. *)
Theorem isRetryable_classification (e : Error) :
  ((exists n, In n retryableStatusCodes /\
              (code e = Num n \/ status e = Num n)) ->
   isRetryable e = true) /\
  ((exists c, In c networkCodes /\ code e = Str c) ->
   isRetryable e = true) /\
  ((exists kw, In kw retryableMessages /\ containsNoCase kw (message e)) ->
   isRetryable e = true) /\
  ((exists n, In n nonRetryableStatusCodes /\ code e = Num n) ->
   (forall m, In m retryableStatusCodes -> status e <> Num m) ->
   isAscii (message e) = true ->
   (forall kw, In kw retryableMessages -> ~ containsNoCase kw (message e)) ->
   isRetryable e = false).
Proof.
  repeat split.
  - intros (n & Hn & H). exact (isRetryable_numeric e n Hn H).
  - intros (c & Hc & H). exact (isRetryable_network e c Hc H).
  - intros (kw & Hkw & H). exact (isRetryable_message e kw Hkw H).
  - intros (n & Hn & H) Hs _. exact (isRetryable_other e n Hn H Hs).
Qed.

Lemma isRetryable_classification_witness :
  isRetryable (createMockGoogleApiError 503 "Mock Google API Error") = true /\
  isRetryable {| name := "Error"; message := "Network error";
                 code := Str "ECONNRESET"; status := Undefined |} = true /\
  isRetryable (newError "Connection REFUSED") = true /\
  isRetryable (createMockGoogleApiError 400 "Bad request") = false.
Proof.
  split; [|split; [|split]].
  - apply (proj1 (isRetryable_classification _)).
    exists 503. split; [simpl; tauto | left; reflexivity].
  - apply (proj1 (proj2 (isRetryable_classification _))).
    exists "ECONNRESET". split; [simpl; tauto | reflexivity].
  - apply (proj1 (proj2 (proj2 (isRetryable_classification _)))).
    exists "connection". split; [simpl; tauto|].
    exists "", "Connection", " REFUSED". split; reflexivity.
  - apply (proj2 (proj2 (proj2 (isRetryable_classification _)))).
    + exists 400. split; [simpl; tauto | reflexivity].
    + intros m Hm E. injection E as <-. simpl in Hm.
      repeat (destruct Hm as [Hm|Hm]; [discriminate|]). exact Hm.
    + reflexivity.
    + intros kw Hkw Hc. apply includes_toLowerCase in Hc. simpl in Hkw.
      repeat (destruct Hkw as [<-|Hkw]; [vm_compute in Hc; discriminate|]).
      exact Hkw.
Defined.

(** C5 as stated fails: an error whose code is 400 is retried when its
    message names a timeout. *)
Lemma isRetryable_code_400_retried :
  code (createMockGoogleApiError 400 "Request Timeout") = Num 400 /\
  In 400 nonRetryableStatusCodes /\
  isRetryable (createMockGoogleApiError 400 "Request Timeout") = true /\
  ~ (forall e n, In n nonRetryableStatusCodes -> code e = Num n ->
                 isRetryable e = false).
Proof.
  split; [reflexivity|]. split; [simpl; tauto|]. split; [reflexivity|].
  intros H.
  specialize (H (createMockGoogleApiError 400 "Request Timeout") 400).
  discriminate H; [simpl; tauto | reflexivity].
Qed.

(** ** The delay between attempts *)

Lemma calculateDelay_no_jitter (baseDelay : Q) (config : RetryConfig) (r : Q) :
  jitter config = false -> calculateDelay baseDelay config r = baseDelay.
Proof. intros H. unfold calculateDelay. now rewrite H. Qed.

Lemma calculateDelay_jitter (baseDelay : Q) (config : RetryConfig) (r : Q) :
  jitter config = true ->
  calculateDelay baseDelay config r
  = Qmax 100 (baseDelay + baseDelay * 0.25 * (r - 0.5) * 2).
Proof. intros H. unfold calculateDelay. now rewrite H. Qed.

(** C7: without jitter [calculateDelay(1000, config)] is exactly 1000; with
    jitter, whatever [Math.random()] draws in [0, 1), the result lies between
    750 and 1250 and is at least 100. *)
Theorem calculateDelay_1000 (config : RetryConfig) (r : Q) :
  (jitter config = false -> calculateDelay 1000 config r = 1000%Q) /\
  (jitter config = true -> (0 <= r)%Q -> (r < 1)%Q ->
   (750 <= calculateDelay 1000 config r)%Q /\
   (calculateDelay 1000 config r <= 1250)%Q /\
   (100 <= calculateDelay 1000 config r)%Q).
Proof.
  split.
  - apply calculateDelay_no_jitter.
  - intros Hj H0 H1. rewrite (calculateDelay_jitter _ _ _ Hj).
    set (d := (1000 + 1000 * 0.25 * (r - 0.5) * 2)%Q).
    assert (Hd : (750 <= d)%Q /\ (d <= 1250)%Q) by (unfold d; split; lra).
    destruct Hd as [Hlo Hhi].
    destruct (Q.max_spec 100 d) as [[Hc E]|[Hc E]]; rewrite E;
      (split; [|split]); lra.
Qed.

Lemma calculateDelay_1000_witness :
  calculateDelay 1000 (mergeOptions
     {| optMaxAttempts := None; optInitialDelay := None; optMaxDelay := None;
        optBackoffFactor := None; optJitter := Some false |}) 0.5 = 1000%Q /\
  (750 <= calculateDelay 1000 defaultOptions 0)%Q /\
  (calculateDelay 1000 defaultOptions 0 <= 1250)%Q /\
  (100 <= calculateDelay 1000 defaultOptions 0)%Q.
Proof.
  split.
  - apply (proj1 (calculateDelay_1000 _ _)). reflexivity.
  - apply (proj2 (calculateDelay_1000 _ _)); [reflexivity|lra|lra].
Defined.

(** ** The retry executor *)

Section RetryFacts.

Context {W R : Type}.
Variable operation : W -> Settled R * W.
Variable random : nat -> Q.

Lemma invoke_eq (h : Env W R) :
  invoke operation h
  = (fst (operation (world h)),
     {| world := snd (operation (world h));
        results := results h ++ [fst (operation (world h))];
        slept := slept h; draws := draws h |}).
Proof. unfold invoke. now destruct (operation (world h)). Qed.

Lemma outcomes_length (k : nat) (w : W) : List.length (outcomes operation k w) = k.
Proof. revert w; induction k; intros w; simpl; [reflexivity | now rewrite IHk]. Qed.

Lemma maxAttempts_merge (options : RetryOptions) (N : Z) :
  optMaxAttempts options = Some N -> maxAttempts (mergeOptions options) = N.
Proof. intros H. unfold mergeOptions. simpl. now rewrite H. Qed.

(** The loop always reaches a [return], a [throw] or its end: [retry]
    never runs out of fuel. *)
Lemma attempts_terminate (config : RetryConfig) (fuel : nat) :
  forall attempt delay lastError h,
    (Z.to_nat (maxAttempts config + 1 - attempt) < fuel)%nat ->
    exists res,
      attempts operation random fuel config attempt delay lastError h
      = Some res.
Proof.
  induction fuel as [|fuel IH]; intros attempt delay lastError h Hf; [lia|].
  cbn [attempts]. destruct (attempt <=? maxAttempts config) eqn:Hle.
  - rewrite invoke_eq. destruct (fst (operation (world h))) as [r|e].
    + eauto.
    + destruct (negb (isRetryable e)); [eauto|].
      destruct (attempt =? maxAttempts config); [eauto|].
      apply IH. apply Z.leb_le in Hle. lia.
  - eauto.
Qed.

Lemma retry_terminates (options : RetryOptions) (h : Env W R) :
  exists res, retry operation random options h = Some res.
Proof.
  unfold retry. apply attempts_terminate. unfold retryFuel. lia.
Qed.

(** *** An operation that fails every time with a retryable error *)

Lemma attempts_all_fail (config : RetryConfig) (Hop : alwaysFailsRetryably operation) :
  forall (k fuel : nat) attempt delay lastError h,
    maxAttempts config = attempt + Z.of_nat k ->
    (k < fuel)%nat ->
    exists e h',
      attempts operation random fuel config attempt delay lastError h
      = Some (Threw e, h') /\
      fst (operation (worldAfter operation k (world h))) = Rejected e /\
      world h' = worldAfter operation (S k) (world h) /\
      results h' = (results h ++ outcomes operation (S k) (world h))%list /\
      List.length (slept h') = (List.length (slept h) + k)%nat.
Proof.
  induction k as [|k IH]; intros fuel attempt delay lastError h Hmax Hfuel;
    (destruct fuel as [|fuel]; [lia|]); cbn [attempts];
    (replace (attempt <=? maxAttempts config) with true
      by (symmetry; apply Z.leb_le; lia));
    rewrite invoke_eq; destruct (Hop (world h)) as (e & He & Hr);
    rewrite He, Hr; cbn [negb].
  - replace (attempt =? maxAttempts config) with true
      by (symmetry; apply Z.eqb_eq; lia).
    eexists _, _. split; [reflexivity|]. cbn.
    rewrite He, Nat.add_0_r. now repeat split.
  - replace (attempt =? maxAttempts config) with false
      by (symmetry; apply Z.eqb_neq; lia).
    edestruct (IH fuel (attempt + 1)) as (e' & h' & Hrun & Hlast & Hw & Hres & Hsl);
      [lia | lia | rewrite Hrun].
    exists e', h'. split; [reflexivity|]. cbn in Hlast, Hw, Hres, Hsl |- *.
    rewrite Hlast, Hw, Hres, Hsl, He, <- app_assoc, length_app.
    repeat split. cbn. lia.
Qed.

Lemma outcomes_snoc (k : nat) (w : W) :
  outcomes operation (S k) w
  = (outcomes operation k w
     ++ [fst (operation (worldAfter operation k w))])%list.
Proof.
  revert w; induction k as [|k IH]; intros w; [reflexivity|].
  change (outcomes operation (S (S k)) w)
    with (fst (operation w) :: outcomes operation (S k) (snd (operation w))).
  now rewrite IH.
Qed.

(** C4: with [maxAttempts = N >= 1] and an operation that fails every time
    with a retryable error, [retry] invokes the operation exactly [N] times
    and throws the error of the last of these invocations. *)
Theorem retry_exhausts_attempts (options : RetryOptions) (N : Z) (w : W) :
  optMaxAttempts options = Some N ->
  1 <= N ->
  alwaysFailsRetryably operation ->
  exists e h' earlier,
    retry operation random options (startEnv w) = Some (Threw e, h') /\
    List.length (results h') = Z.to_nat N /\
    results h' = outcomes operation (Z.to_nat N) w /\
    results h' = (earlier ++ [Rejected e])%list /\
    world h' = worldAfter operation (Z.to_nat N) w.
Proof.
  intros HN Hpos Hop. unfold retry.
  destruct (attempts_all_fail (mergeOptions options) Hop
              (Z.to_nat (N - 1)) (retryFuel (mergeOptions options)) 1
              (initialDelay (mergeOptions options)) None (startEnv w))
    as (e & h' & Hrun & Hlast & Hw & Hres & _).
  - rewrite (maxAttempts_merge _ _ HN). lia.
  - unfold retryFuel. rewrite (maxAttempts_merge _ _ HN). lia.
  - replace (S (Z.to_nat (N - 1))) with (Z.to_nat N) in * by lia.
    cbn [startEnv world results app] in *.
    exists e, h', (outcomes operation (Z.to_nat (N - 1)) w).
    repeat split; try assumption.
    + now rewrite Hres, outcomes_length.
    + rewrite Hres, <- Hlast.
      replace (Z.to_nat N) with (S (Z.to_nat (N - 1))) by lia.
      apply outcomes_snoc.
Qed.

(** C6: when the first invocation fails with an error that is not
    retryable, [retry] throws that very error after this single invocation,
    whatever [maxAttempts = N >= 1] is; it neither sleeps nor draws. *)
Theorem retry_non_retryable
    (options : RetryOptions) (N : Z) (w w' : W) (e : Error) :
  optMaxAttempts options = Some N ->
  1 <= N ->
  operation w = (Rejected e, w') ->
  isRetryable e = false ->
  retry operation random options (startEnv w)
  = Some (Threw e, {| world := w'; results := [Rejected e];
                      slept := []; draws := 0 |}).
Proof.
  intros HN Hpos Hop Hr. unfold retry, retryFuel. cbn [attempts].
  rewrite (maxAttempts_merge _ _ HN).
  replace (1 <=? N) with true by (symmetry; apply Z.leb_le; lia).
  rewrite invoke_eq. cbn [startEnv world results slept draws].
  rewrite Hop. cbn [fst snd app]. now rewrite Hr.
Qed.

(** C8: in the end-to-end scenario ([maxAttempts] 3, [initialDelay] 100,
    [backoffFactor] 2, no jitter, the default [maxDelay]) an operation that
    fails twice with status 503 and then succeeds is invoked exactly three
    times; [retry] sleeps 100 ms, then [min(100 * 2, maxDelay)] = 200 ms, and
    returns the result of the third invocation. *)
Theorem retry_two_failures_then_success
    (w0 w1 w2 w3 : W) (e1 e2 : Error) (r : R) :
  operation w0 = (Rejected e1, w1) -> status e1 = Num 503 ->
  operation w1 = (Rejected e2, w2) -> status e2 = Num 503 ->
  operation w2 = (Resolved r, w3) ->
  let config := mergeOptions scenarioOptions in
  retry operation random scenarioOptions (startEnv w0)
  = Some (Returned r,
          {| world := w3;
             results := [Rejected e1; Rejected e2; Resolved r];
             slept := [initialDelay config;
                       Qmin (initialDelay config * backoffFactor config)
                            (maxDelay config)];
             draws := 0 |}) /\
  initialDelay config = 100%Q /\
  Qmin (initialDelay config * backoffFactor config) (maxDelay config) = 200%Q.
Proof.
  intros H1 S1 H2 S2 H3 config.
  assert (R1 : isRetryable e1 = true)
    by (apply (isRetryable_numeric e1 503); [simpl; tauto | now right]).
  assert (R2 : isRetryable e2 = true)
    by (apply (isRetryable_numeric e2 503); [simpl; tauto | now right]).
  split; [|split; reflexivity].
  unfold retry. fold config. change (retryFuel config) with 4%nat.
  cbn [attempts]. change (1 <=? maxAttempts config) with true. cbv iota.
  rewrite invoke_eq. cbn [startEnv world results slept draws app].
  rewrite H1. cbn [fst snd]. rewrite R1. cbn [negb].
  change (1 =? maxAttempts config) with false. cbv iota zeta.
  change (1 + 1 <=? maxAttempts config) with true. cbv iota.
  rewrite invoke_eq. unfold delayAndSleep.
  cbn [world results slept draws app].
  rewrite H2. cbn [fst snd]. rewrite R2. cbn [negb].
  change (1 + 1 =? maxAttempts config) with false. cbv iota zeta.
  change (1 + 1 + 1 <=? maxAttempts config) with true. cbv iota.
  rewrite invoke_eq. cbn [world results slept draws app].
  rewrite H3. cbn [fst snd].
  reflexivity.
Qed.

End RetryFacts.

Lemma retry_exhausts_attempts_witness :
  exists e h' earlier,
    retry (alwaysRejects 500) halves (onlyMaxAttempts 3) (startEnv 0%nat)
    = Some (Threw e, h') /\
    List.length (results h') = Z.to_nat 3 /\
    results h' = outcomes (alwaysRejects 500) (Z.to_nat 3) 0%nat /\
    results h' = (earlier ++ [Rejected e])%list /\
    world h' = worldAfter (alwaysRejects 500) (Z.to_nat 3) 0%nat.
Proof.
  apply (retry_exhausts_attempts (alwaysRejects 500) halves
           (onlyMaxAttempts 3) 3 0%nat).
  - reflexivity.
  - lia.
  - intros w. exists (createMockGoogleApiError 500 "Mock Google API Error").
    split; [destruct w; reflexivity | reflexivity].
Defined.

Lemma retry_non_retryable_witness :
  retry (alwaysRejects 400) halves (onlyMaxAttempts 3) (startEnv 0%nat)
  = Some (Threw (createMockGoogleApiError 400 "Mock Google API Error"),
          {| world := 1%nat;
             results :=
               [Rejected (createMockGoogleApiError 400 "Mock Google API Error")];
             slept := []; draws := 0 |}).
Proof.
  apply (retry_non_retryable (alwaysRejects 400) halves
           (onlyMaxAttempts 3) 3 0%nat 1%nat);
    [reflexivity | lia | reflexivity | reflexivity].
Defined.

Lemma retry_two_failures_then_success_witness :
  retry failsTwice halves scenarioOptions (startEnv 0%nat)
  = Some (Returned "success",
          {| world := 3%nat;
             results :=
               [Rejected (createMockGoogleApiError 503 "Service unavailable");
                Rejected (createMockGoogleApiError 503 "Service unavailable");
                Resolved "success"];
             slept := [100%Q; 200%Q];
             draws := 0 |}).
Proof.
  apply (retry_two_failures_then_success failsTwice halves
           0%nat 1%nat 2%nat 3%nat _ _ "success"); reflexivity.
Defined.

(** ** The circuit breaker *)

Section BreakerFacts.

Context {A W R : Type}.
Variable operation : A -> W -> Settled R * W.
Variable config : BreakerConfig.

Lemma invokeWith_eq (args : A) (h : Host W R) :
  invokeWith operation args h
  = (fst (operation args (hworld h)),
     {| hworld := snd (operation args (hworld h));
        hresults := hresults h ++ [fst (operation args (hworld h))] |}).
Proof. unfold invokeWith. now destruct (operation args (hworld h)). Qed.

Lemma monitor_within (now : Z) (b : Breaker) :
  withinWindow config now b -> monitor config now b = b.
Proof. unfold withinWindow, monitor. now intros ->. Qed.

Lemma elapsedExceeds_true (now limit t : Z) :
  t <> 0 -> limit < now - t -> elapsedExceeds now (Some t) limit = true.
Proof.
  intros Ht Hl. unfold elapsedExceeds.
  apply andb_true_iff. split.
  - apply negb_true_iff, Z.eqb_neq, Ht.
  - now apply Z.ltb_lt.
Qed.

Lemma elapsedExceeds_false (now limit : Z) (last : option Z) :
  (forall t, last = Some t -> now - t <= limit) ->
  elapsedExceeds now last limit = false.
Proof.
  intros H. destruct last as [t|]; [|reflexivity]. cbn.
  apply andb_false_iff. right. apply Z.ltb_ge. now apply H.
Qed.

(** A call that finds the breaker closed inside the monitoring window. *)
Lemma call_closed (now : Z) (args : A) (b : Breaker) (h : Host W R) :
  state b = CLOSED -> withinWindow config now b ->
  call operation config now args b h
  = match fst (operation args (hworld h)) with
    | Resolved r => (Returned r, b, snd (invokeWith operation args h))
    | Rejected e =>
        (Threw e, onFailure config now b, snd (invokeWith operation args h))
    end.
Proof.
  intros Hs Hw. unfold call. rewrite (monitor_within _ _ Hw).
  unfold gate. rewrite Hs, invokeWith_eq. cbn [fst snd].
  destruct (fst (operation args (hworld h))); [|reflexivity].
  unfold onSuccess. now rewrite Hs.
Qed.

Lemma rejections_nonneg (out : list (Completion R)) : 0 <= rejections out.
Proof. induction out as [|[r|e] out IH]; cbn [rejections]; lia. Qed.

(** Calls that all fall in a span of time no longer than the monitoring
    window, made on a closed breaker, keep it closed as long as the failures
    stay under the threshold; the failure count grows by the number of
    failed calls, however the successes are interleaved. *)
Lemma closed_run (lo hi : Z) :
  hi - lo <= monitoringWindow config ->
  forall cs b h out b' h',
    state b = CLOSED ->
    (forall t, lastFailureTime b = Some t -> lo <= t) ->
    Forall (fun c => lo <= fst c <= hi) cs ->
    calls operation config cs b h = (out, b', h') ->
    failures b + rejections out < failureThreshold config ->
    state b' = CLOSED /\
    failures b' = failures b + rejections out /\
    (forall t, lastFailureTime b' = Some t -> lo <= t) /\
    List.length (hresults h')
    = (List.length (hresults h) + List.length cs)%nat.
Proof.
  intros Hspan. induction cs as [|[now args] cs IH];
    intros b h out b' h' Hs Hlast Htimes Hrun Hlt.
  - injection Hrun as <- <- <-. cbn. repeat split; auto; lia.
  - inversion Htimes as [|? ? Hnow Hrest]; subst. cbn [fst] in Hnow.
    cbn [calls] in Hrun.
    assert (Hw : withinWindow config now b).
    { apply elapsedExceeds_false. intros t Ht. specialize (Hlast t Ht). lia. }
    rewrite (call_closed now args b h Hs Hw), invokeWith_eq in Hrun.
    cbn [snd] in Hrun.
    destruct (fst (operation args (hworld h))) as [r|e];
      match type of Hrun with
      | context [calls operation config cs ?b1 ?h1] =>
          destruct (calls operation config cs b1 h1) as [[out1 b2] h2] eqn:E
      end;
      injection Hrun as <- <- <-; cbn [rejections] in Hlt |- *.
    + destruct (IH _ _ _ _ _ Hs Hlast Hrest E Hlt) as (? & ? & ? & Hlen).
      repeat split; auto.
      rewrite Hlen. cbn [hresults]. rewrite length_app. cbn. lia.
    + pose proof (rejections_nonneg out1) as Hpos.
      assert (Hs1 : state (onFailure config now b) = CLOSED).
      { unfold onFailure. cbn [state]. rewrite Hs. cbn [isHalfOpen orb].
        now replace (failureThreshold config <=? failures b + 1) with false
          by (symmetry; apply Z.leb_gt; lia). }
      assert (Hl1 : forall t, lastFailureTime (onFailure config now b) = Some t
                              -> lo <= t)
        by (cbn; intros t Ht; injection Ht as <-; lia).
      assert (Hlt1 : failures (onFailure config now b) + rejections out1
                     < failureThreshold config)
        by (cbn [onFailure failures]; lia).
      destruct (IH _ _ _ _ _ Hs1 Hl1 Hrest E Hlt1) as (? & Hf & ? & Hlen).
      repeat split; auto.
      * rewrite Hf. cbn [onFailure failures]. lia.
      * rewrite Hlen. cbn [hresults]. rewrite length_app. cbn. lia.
Qed.

Lemma elapsedExceeds_inv (now limit : Z) (last : option Z) :
  elapsedExceeds now last limit = true ->
  exists t, last = Some t /\ t <> 0 /\ limit < now - t.
Proof.
  destruct last as [t|]; cbn; [|discriminate]. intros H.
  apply andb_true_iff in H as [H1 H2]. exists t.
  apply negb_true_iff, Z.eqb_neq in H1. apply Z.ltb_lt in H2. auto.
Qed.

(** A positive failure count becomes 0 in one call only through the window
    guard or through the closing of a half-open breaker. *)
Lemma failures_reset_only (now : Z) (args : A) (b : Breaker) (h : Host W R)
    (c : Completion R) (b' : Breaker) (h' : Host W R) :
  0 < failures b ->
  call operation config now args b h = (c, b', h') ->
  failures b' = 0 ->
  (exists t, lastFailureTime b = Some t /\ t <> 0 /\
             monitoringWindow config < now - t) \/
  (state b = HALF_OPEN /\ state b' = CLOSED /\ exists r, c = Returned r).
Proof.
  intros Hpos Hcall Hzero. unfold call, monitor in Hcall.
  destruct (elapsedExceeds now (lastFailureTime b) (monitoringWindow config))
    eqn:M; [left; now apply elapsedExceeds_inv|].
  right. unfold gate in Hcall. destruct (state b) eqn:S.
  - rewrite invokeWith_eq in Hcall.
    destruct (fst (operation args (hworld h)));
      injection Hcall as <- <- <-;
      unfold onSuccess, onFailure in Hzero; rewrite ?S in Hzero;
      cbn in Hzero; lia.
  - destruct (elapsedExceeds now (lastFailureTime b) (resetTimeout config)).
    + rewrite invokeWith_eq in Hcall.
      destruct (fst (operation args (hworld h)));
        injection Hcall as <- <- <-;
        unfold onSuccess, onFailure in Hzero; cbn in Hzero; lia.
    + injection Hcall as <- <- <-. lia.
  - rewrite invokeWith_eq in Hcall.
    destruct (fst (operation args (hworld h))) as [r|e];
      injection Hcall as <- <- <-.
    + unfold onSuccess in Hzero |- *. rewrite S in Hzero |- *.
      destruct (2 <=? successes b + 1); cbn in Hzero |- *; [|lia].
      split; [reflexivity|]. split; [reflexivity|]. now exists r.
    + unfold onFailure in Hzero. cbn in Hzero. lia.
Qed.

(** C1, as the code has it: a success on a closed breaker, inside the
    monitoring window, leaves the failure count and the rest of the breaker
    as they are, so failures that are interleaved with successes inside one
    monitoring window add up, and the one that reaches [failureThreshold]
    opens the circuit.  A positive count returns to 0 only when more than
    [monitoringWindow] has passed since the last failure or when a
    half-open breaker closes on a success. *)
Theorem closed_success_keeps_failures :
  (forall now args b h c b' h',
     0 < failures b ->
     call operation config now args b h = (c, b', h') ->
     failures b' = 0 ->
     (exists t, lastFailureTime b = Some t /\ t <> 0 /\
                monitoringWindow config < now - t) \/
     (state b = HALF_OPEN /\ state b' = CLOSED /\ exists r, c = Returned r)) /\
  (forall now args b h r,
     state b = CLOSED ->
     withinWindow config now b ->
     fst (operation args (hworld h)) = Resolved r ->
     call operation config now args b h
     = (Returned r, b, snd (invokeWith operation args h))) /\
  (forall lo hi cs now args b h out b1 h1 e,
     hi - lo <= monitoringWindow config ->
     state b = CLOSED ->
     (forall t, lastFailureTime b = Some t -> lo <= t) ->
     Forall (fun c => lo <= fst c <= hi) cs ->
     lo <= now <= hi ->
     calls operation config cs b h = (out, b1, h1) ->
     failures b + rejections out < failureThreshold config ->
     failureThreshold config <= failures b + rejections out + 1 ->
     fst (operation args (hworld h1)) = Rejected e ->
     exists b2 h2,
       call operation config now args b1 h1 = (Threw e, b2, h2) /\
       state b2 = OPEN /\
       failures b2 = failures b + rejections out + 1).
Proof.
  split; [exact failures_reset_only|]. split.
  - intros now args b h r Hs Hw Hop.
    now rewrite (call_closed now args b h Hs Hw), Hop.
  - intros lo hi cs now args b h out b1 h1 e
      Hspan Hs Hlast Htimes Hnow Hrun Hlt Hge Hop.
    destruct (closed_run lo hi Hspan cs b h out b1 h1 Hs Hlast Htimes Hrun Hlt)
      as (Hs1 & Hf1 & Hlast1 & _).
    assert (Hw : withinWindow config now b1).
    { apply elapsedExceeds_false. intros t Ht. specialize (Hlast1 t Ht). lia. }
    rewrite (call_closed now args b1 h1 Hs1 Hw), Hop.
    eexists _, _. split; [reflexivity|]. unfold onFailure. cbn [state failures].
    rewrite Hs1, Hf1. cbn [isHalfOpen orb].
    replace (failureThreshold config <=? failures b + rejections out + 1)
      with true by (symmetry; apply Z.leb_le; lia).
    now split.
Qed.

(** C2, as the code has it: with [failureThreshold = 3], three failing calls
    on a new breaker, each no later than [monitoringWindow] after the
    previous one, open the circuit; a fourth call no later than
    [resetTimeout] and [monitoringWindow] after the third throws the
    circuit-open error, leaves the operation at its three invocations and
    leaves the breaker, its failure count included, as it was. *)
Theorem threshold_three_opens
    (t1 t2 t3 t4 : Z) (a1 a2 a3 a4 : A) (w0 w1 w2 w3 : W) (e1 e2 e3 : Error) :
  failureThreshold config = 3 ->
  operation a1 w0 = (Rejected e1, w1) ->
  operation a2 w1 = (Rejected e2, w2) ->
  operation a3 w2 = (Rejected e3, w3) ->
  t2 - t1 <= monitoringWindow config ->
  t3 - t2 <= monitoringWindow config ->
  t4 - t3 <= resetTimeout config ->
  t4 - t3 <= monitoringWindow config ->
  exists b3 h3,
    calls operation config [(t1, a1); (t2, a2); (t3, a3)]
      newBreaker (startHost w0)
    = ([Threw e1; Threw e2; Threw e3], b3, h3) /\
    state b3 = OPEN /\
    failures b3 = 3 /\
    hresults h3 = [Rejected e1; Rejected e2; Rejected e3] /\
    call operation config t4 a4 b3 h3 = (Threw circuitOpenError, b3, h3).
Proof.
  intros Hth H1 H2 H3 W2 W3 R4 W4.
  assert (X2 : elapsedExceeds t2 (Some t1) (monitoringWindow config) = false)
    by (apply elapsedExceeds_false; intros t [= <-]; lia).
  assert (X3 : elapsedExceeds t3 (Some t2) (monitoringWindow config) = false)
    by (apply elapsedExceeds_false; intros t [= <-]; lia).
  assert (X4 : elapsedExceeds t4 (Some t3) (monitoringWindow config) = false)
    by (apply elapsedExceeds_false; intros t [= <-]; lia).
  assert (Y4 : elapsedExceeds t4 (Some t3) (resetTimeout config) = false)
    by (apply elapsedExceeds_false; intros t [= <-]; lia).
  set (b1 := {| state := CLOSED; failures := 1;
                lastFailureTime := Some t1; successes := 0 |}).
  set (b2 := {| state := CLOSED; failures := 2;
                lastFailureTime := Some t2; successes := 0 |}).
  set (b3 := {| state := OPEN; failures := 3;
                lastFailureTime := Some t3; successes := 0 |}).
  set (h1 := {| hworld := w1; hresults := [@Rejected R e1] |}).
  set (h2 := {| hworld := w2; hresults := [@Rejected R e1; Rejected e2] |}).
  set (h3 := {| hworld := w3;
                hresults := [@Rejected R e1; Rejected e2; Rejected e3] |}).
  assert (C1 : call operation config t1 a1 newBreaker (startHost w0)
               = (Threw e1, b1, h1)).
  { rewrite call_closed, invokeWith_eq; [|reflexivity|reflexivity].
    cbn [startHost hworld hresults]. rewrite H1. unfold onFailure.
    cbn [fst snd newBreaker state failures]. now rewrite Hth. }
  assert (C2 : call operation config t2 a2 b1 h1 = (Threw e2, b2, h2)).
  { rewrite call_closed, invokeWith_eq; [|reflexivity|exact X2].
    cbn [h1 hworld hresults]. rewrite H2. unfold onFailure.
    cbn [fst snd b1 state failures]. now rewrite Hth. }
  assert (C3 : call operation config t3 a3 b2 h2 = (Threw e3, b3, h3)).
  { rewrite call_closed, invokeWith_eq; [|reflexivity|exact X3].
    cbn [h2 hworld hresults]. rewrite H3. unfold onFailure.
    cbn [fst snd b2 state failures]. now rewrite Hth. }
  exists b3, h3. split; [|split; [|split; [|split]]]; try reflexivity.
  - cbn [calls]. now rewrite C1, C2, C3.
  - unfold call, monitor. change (lastFailureTime b3) with (Some t3).
    rewrite X4. unfold gate. change (state b3) with OPEN. cbv iota.
    change (lastFailureTime b3) with (Some t3). now rewrite Y4.
Qed.

(** C3, as the code has it.  (1) On an open breaker whose last failure is
    more than [resetTimeout] but not more than [monitoringWindow] ago, the
    call goes through as a half-open probe that starts from a success count
    of 0.  (2) A failure of a call that finds the breaker half-open, inside
    the monitoring window, reopens it at once.  (3) A success of such a call
    that brings the success count to 2 closes the breaker with a failure
    count of 0. *)
Theorem half_open_protocol
    (now : Z) (args : A) (b : Breaker) (h : Host W R)
    (c : Completion R) (b' : Breaker) (h' : Host W R) :
  call operation config now args b h = (c, b', h') ->
  (forall t,
     state b = OPEN -> lastFailureTime b = Some t -> t <> 0 ->
     resetTimeout config < now - t -> now - t <= monitoringWindow config ->
     gate config now (monitor config now b)
     = Some {| state := HALF_OPEN; failures := failures b;
               lastFailureTime := Some t; successes := 0 |} /\
     hresults h' = (hresults h ++ [fst (operation args (hworld h))])%list /\
     (forall r, c = Returned r ->
                state b' = HALF_OPEN /\ successes b' = 1 /\
                failures b' = failures b) /\
     (forall e, c = Threw e ->
                state b' = OPEN /\ lastFailureTime b' = Some now)) /\
  (state b = HALF_OPEN -> withinWindow config now b ->
   forall e, c = Threw e -> state b' = OPEN /\ lastFailureTime b' = Some now) /\
  (state b = HALF_OPEN -> withinWindow config now b -> 1 <= successes b ->
   forall r, c = Returned r -> state b' = CLOSED /\ failures b' = 0).
Proof.
  intros Hcall. split; [|split].
  - intros t Hs Hl Ht Hreset Hwin.
    assert (Hw : withinWindow config now b).
    { apply elapsedExceeds_false. intros t' Ht'. rewrite Hl in Ht'.
      injection Ht' as <-. exact Hwin. }
    assert (Hg : gate config now (monitor config now b)
                 = Some {| state := HALF_OPEN; failures := failures b;
                           lastFailureTime := Some t; successes := 0 |}).
    { rewrite (monitor_within _ _ Hw). unfold gate.
      now rewrite Hs, Hl, (elapsedExceeds_true _ _ _ Ht Hreset). }
    split; [exact Hg|]. unfold call in Hcall.
    rewrite Hg, invokeWith_eq in Hcall.
    destruct (fst (operation args (hworld h))) as [r|e];
      injection Hcall as <- <- <-; cbn; repeat split; try discriminate;
      reflexivity.
  - intros Hs Hw e ->. unfold call in Hcall.
    rewrite (monitor_within _ _ Hw) in Hcall. unfold gate in Hcall.
    rewrite Hs, invokeWith_eq in Hcall.
    destruct (fst (operation args (hworld h))); [discriminate|].
    injection Hcall as _ <- _. unfold onFailure. cbn. now rewrite Hs.
  - intros Hs Hw Hsucc r ->. unfold call in Hcall.
    rewrite (monitor_within _ _ Hw) in Hcall. unfold gate in Hcall.
    rewrite Hs, invokeWith_eq in Hcall.
    destruct (fst (operation args (hworld h))); [|discriminate].
    injection Hcall as _ <- _. unfold onSuccess. rewrite Hs.
    now replace (2 <=? successes b + 1) with true
      by (symmetry; apply Z.leb_le; lia).
Qed.


End BreakerFacts.

(** *** The breaker on the mocks of the unit tests *)

(** C1 as stated fails: with a threshold of 2, a failure, a success and a
    second failure, one second apart, open the circuit; after the success the
    failure count is still 1. *)
Lemma closed_success_does_not_reset :
  calls flaky (withThreshold 2) [(1000, tt); (2000, tt)]
    newBreaker (startHost 0%nat)
  = ([Threw testError; Returned "success"],
     {| state := CLOSED; failures := 1;
        lastFailureTime := Some 1000; successes := 0 |},
     {| hworld := 2%nat;
        hresults := [Rejected testError; Resolved "success"] |}) /\
  calls flaky (withThreshold 2) [(1000, tt); (2000, tt); (3000, tt)]
    newBreaker (startHost 0%nat)
  = ([Threw testError; Returned "success"; Threw testError],
     {| state := OPEN; failures := 2;
        lastFailureTime := Some 3000; successes := 0 |},
     {| hworld := 3%nat;
        hresults := [Rejected testError; Resolved "success";
                     Rejected testError] |}).
Proof. split; reflexivity. Qed.

(** C2 as stated fails: with a threshold of 3 and the default timeouts,
    three failing calls that are each more than the monitoring window apart
    leave the breaker closed, and a fourth call one millisecond later reaches
    the operation. *)
Lemma spaced_failures_do_not_open :
  calls alwaysThrows (withThreshold 3)
    [(1000, tt); (400000, tt); (800000, tt)] newBreaker (startHost 0%nat)
  = ([Threw testError; Threw testError; Threw testError],
     {| state := CLOSED; failures := 1;
        lastFailureTime := Some 800000; successes := 0 |},
     {| hworld := 3%nat;
        hresults := [Rejected testError; Rejected testError;
                     Rejected testError] |}) /\
  call alwaysThrows (withThreshold 3) 800001 tt
    {| state := CLOSED; failures := 1;
       lastFailureTime := Some 800000; successes := 0 |}
    {| hworld := 3%nat;
       hresults := [Rejected testError; Rejected testError;
                    Rejected testError] |}
  = (Threw testError,
     {| state := CLOSED; failures := 2;
        lastFailureTime := Some 800001; successes := 0 |},
     {| hworld := 4%nat;
        hresults := [Rejected testError; Rejected testError;
                     Rejected testError; Rejected testError] |}) /\
  800001 - 800000 < resetTimeout (withThreshold 3).
Proof. split; [|split]; reflexivity. Qed.

(** C3 as stated fails: with a reset timeout of 100 ms, a call exactly
    100 ms after the failure that opened the circuit is still rejected and
    the operation is not invoked; and a call made after the monitoring
    window as well finds the breaker closed, not half-open, so that its
    success needs no second one. *)
Lemma probe_needs_more_than_resetTimeout :
  calls throwsTwice (withThresholdAndReset 2 100)
    [(1000, tt); (1001, tt); (1101, tt)] newBreaker (startHost 0%nat)
  = ([Threw testError; Threw testError; Threw circuitOpenError],
     {| state := OPEN; failures := 2;
        lastFailureTime := Some 1001; successes := 0 |},
     {| hworld := 2%nat;
        hresults := [Rejected testError; Rejected testError] |}) /\
  resetTimeout (withThresholdAndReset 2 100) <= 1101 - 1001 /\
  calls throwsTwice (withThresholdAndReset 2 100)
    [(1000, tt); (1001, tt); (400000, tt)] newBreaker (startHost 0%nat)
  = ([Threw testError; Threw testError; Returned "success"],
     {| state := CLOSED; failures := 0;
        lastFailureTime := Some 1001; successes := 0 |},
     {| hworld := 3%nat;
        hresults := [Rejected testError; Rejected testError;
                     Resolved "success"] |}).
Proof. split; [reflexivity|]. split; [cbn; lia | reflexivity]. Qed.


Lemma closed_success_keeps_failures_witness :
  (let probing := {| state := HALF_OPEN; failures := 2;
                     lastFailureTime := Some 1001; successes := 1 |} in
   let closed := {| state := CLOSED; failures := 0;
                    lastFailureTime := Some 1001; successes := 2 |} in
   (exists t, lastFailureTime probing = Some t /\ t <> 0 /\
              monitoringWindow (withThresholdAndReset 2 100) < 1200 - t) \/
   (state probing = HALF_OPEN /\ state closed = CLOSED /\
    exists r, Returned "success" = Returned r)) /\
  call flaky (withThreshold 2) 2000 tt
    {| state := CLOSED; failures := 1;
       lastFailureTime := Some 1000; successes := 0 |}
    {| hworld := 1%nat; hresults := [Rejected testError] |}
  = (Returned "success",
     {| state := CLOSED; failures := 1;
        lastFailureTime := Some 1000; successes := 0 |},
     {| hworld := 2%nat;
        hresults := [Rejected testError; Resolved "success"] |}) /\
  exists b2 h2,
    call flaky (withThreshold 2) 3000 tt
      {| state := CLOSED; failures := 1;
         lastFailureTime := Some 1000; successes := 0 |}
      {| hworld := 2%nat;
         hresults := [Rejected testError; Resolved "success"] |}
    = (Threw testError, b2, h2) /\
    state b2 = OPEN /\
    failures b2 = 1 + rejections [@Returned string "success"] + 1.
Proof.
  split; [|split].
  - refine (proj1 (closed_success_keeps_failures throwsTwice
                     (withThresholdAndReset 2 100))
              1200 tt
              {| state := HALF_OPEN; failures := 2;
                 lastFailureTime := Some 1001; successes := 1 |}
              {| hworld := 3%nat; hresults := [] |}
              (Returned "success")
              {| state := CLOSED; failures := 0;
                 lastFailureTime := Some 1001; successes := 2 |}
              {| hworld := 4%nat; hresults := [Resolved "success"] |}
              _ eq_refl eq_refl).
    cbn. lia.
  - exact (proj1 (proj2 (closed_success_keeps_failures flaky (withThreshold 2)))
             2000 tt
             {| state := CLOSED; failures := 1;
                lastFailureTime := Some 1000; successes := 0 |}
             {| hworld := 1%nat; hresults := [Rejected testError] |}
             "success" eq_refl eq_refl eq_refl).
  - apply (proj2 (proj2 (closed_success_keeps_failures flaky (withThreshold 2)))
             1000 3000 [(2000, tt)] 3000 tt
             {| state := CLOSED; failures := 1;
                lastFailureTime := Some 1000; successes := 0 |}
             {| hworld := 1%nat; hresults := [Rejected testError] |}
             [Returned "success"]).
    + cbn. lia.
    + reflexivity.
    + intros t [= <-]. lia.
    + repeat constructor; cbn; lia.
    + lia.
    + reflexivity.
    + cbn. lia.
    + cbn. lia.
    + reflexivity.
Defined.

Lemma threshold_three_opens_witness :
  exists b3 h3,
    calls alwaysThrows (withThresholdAndReset 3 1000)
      [(1000, tt); (1001, tt); (1002, tt)] newBreaker (startHost 0%nat)
    = ([Threw testError; Threw testError; Threw testError], b3, h3) /\
    state b3 = OPEN /\
    failures b3 = 3 /\
    hresults h3 = [Rejected testError; Rejected testError; Rejected testError] /\
    call alwaysThrows (withThresholdAndReset 3 1000) 1003 tt b3 h3
    = (Threw circuitOpenError, b3, h3).
Proof.
  apply (threshold_three_opens alwaysThrows (withThresholdAndReset 3 1000)
           1000 1001 1002 1003 tt tt tt tt 0%nat 1%nat 2%nat 3%nat);
    try reflexivity; cbn; lia.
Defined.

Lemma half_open_protocol_witness :
  let config := withThresholdAndReset 2 100 in
  let opened := {| state := OPEN; failures := 2;
                   lastFailureTime := Some 1001; successes := 0 |} in
  let probing := {| state := HALF_OPEN; failures := 2;
                    lastFailureTime := Some 1001; successes := 1 |} in
  let reopened := {| state := OPEN; failures := 3;
                     lastFailureTime := Some 1200; successes := 1 |} in
  let closed := {| state := CLOSED; failures := 0;
                   lastFailureTime := Some 1001; successes := 2 |} in
  let h2 := {| hworld := 2%nat;
               hresults := [Rejected testError; Rejected testError] |} in
  let h3 := {| hworld := 3%nat;
               hresults := [Rejected testError; Rejected testError;
                            Resolved "success"] |} in
  let h4 := {| hworld := 4%nat;
               hresults := [Rejected testError; Rejected testError;
                            Resolved "success"; Resolved "success"] |} in
  let h4' := {| hworld := 4%nat;
                hresults := [Rejected testError; Rejected testError;
                             Resolved "success"; Rejected testError] |} in
  (call throwsTwice config 1151 tt opened h2 = (Returned "success", probing, h3) /\
   gate config 1151 (monitor config 1151 opened)
   = Some {| state := HALF_OPEN; failures := 2;
             lastFailureTime := Some 1001; successes := 0 |} /\
   hresults h3 = (hresults h2 ++ [fst (throwsTwice tt (hworld h2))])%list /\
   state probing = HALF_OPEN /\ successes probing = 1 /\
   failures probing = failures opened) /\
  (call alwaysThrows config 1200 tt probing h3 = (Threw testError, reopened, h4') /\
   state reopened = OPEN /\ lastFailureTime reopened = Some 1200) /\
  (call throwsTwice config 1200 tt probing h3 = (Returned "success", closed, h4) /\
   state closed = CLOSED /\ failures closed = 0).
Proof.
  intros config opened probing reopened closed h2 h3 h4 h4'.
  split; [|split].
  - split; [reflexivity|].
    destruct (proj1 (half_open_protocol throwsTwice config 1151 tt
                       opened h2 (Returned "success") probing h3 eq_refl)
                1001) as (Hg & Hres & Hok & _);
      [reflexivity | reflexivity | lia | cbn; lia | cbn; lia |].
    destruct (Hok "success" eq_refl) as (Hs & Hn & Hf).
    exact (conj Hg (conj Hres (conj Hs (conj Hn Hf)))).
  - split; [reflexivity|].
    exact (proj1 (proj2 (half_open_protocol alwaysThrows config 1200 tt
                           probing h3 (Threw testError) reopened h4' eq_refl))
             eq_refl eq_refl testError eq_refl).
  - split; [reflexivity|].
    refine (proj2 (proj2 (half_open_protocol throwsTwice config 1200 tt
                            probing h3 (Returned "success") closed h4 eq_refl))
              eq_refl eq_refl _ "success" eq_refl).
    cbn. lia.
Defined.


(** * Further properties of the retry utility *)

(** ** The shape of a run of [retry] *)

Section RetryRuns.

Context {W R : Type}.
Variable operation : W -> Settled R * W.
Variable random : nat -> Q.

(** What the completion of [retry] is, given how the last invocation
    settled. *)
Lemma attempts_trace (config : RetryConfig) :
  forall (fuel : nat) attempt delay lastError h c h',
    attempt <= maxAttempts config ->
    attempts operation random fuel config attempt delay lastError h
    = Some (c, h') ->
    exists (k : nat) earlier last,
      results h' = (results h ++ outcomes operation (S k) (world h))%list /\
      world h' = worldAfter operation (S k) (world h) /\
      outcomes operation (S k) (world h) = (earlier ++ [last])%list /\
      Forall retryableRejection earlier /\
      c = match last with
          | Resolved r => Returned r
          | Rejected e => Threw e
          end /\
      attempt + Z.of_nat k <= maxAttempts config /\
      (retryableRejection last ->
       attempt + Z.of_nat k = maxAttempts config) /\
      List.length (slept h') = (List.length (slept h) + k)%nat /\
      draws h' = (draws h + (if jitter config then k else 0))%nat.
Proof.
  induction fuel as [|fuel IH];
    intros attempt delay lastError h c h' Hle Hrun; [discriminate|].
  cbn [attempts] in Hrun.
  replace (attempt <=? maxAttempts config) with true in Hrun
    by (symmetry; apply Z.leb_le; exact Hle).
  rewrite invoke_eq in Hrun.
  destruct (fst (operation (world h))) as [r|e] eqn:Hop.
  - injection Hrun as <- <-. exists 0%nat, [], (Resolved r).
    cbn. rewrite Hop.
    repeat split; auto; try lia; destruct (jitter config); lia.
  - destruct (isRetryable e) eqn:Hr; cbn [negb] in Hrun.
    + destruct (attempt =? maxAttempts config) eqn:Hlast.
      * injection Hrun as <- <-. exists 0%nat, [], (Rejected e).
        cbn. rewrite Hop. apply Z.eqb_eq in Hlast.
        repeat split; auto; try lia; destruct (jitter config); lia.
      * apply Z.eqb_neq in Hlast.
        apply IH in Hrun; [|lia].
        destruct Hrun as (k & earlier & last & Hres & Hw & Hout & Hall & Hc
                          & Hk & Hex & Hsl & Hd).
        cbn [delayAndSleep world results slept draws] in Hres, Hw, Hout, Hsl, Hd.
        exists (S k), (Rejected e :: earlier), last.
        change (outcomes operation (S (S k)) (world h))
          with (fst (operation (world h))
                :: outcomes operation (S k) (snd (operation (world h)))).
        change (worldAfter operation (S (S k)) (world h))
          with (worldAfter operation (S k) (snd (operation (world h)))).
        rewrite Hop, Hout. rewrite Hres, Hout, <- app_assoc.
        assert (Hall' : Forall retryableRejection (Rejected e :: earlier))
          by (constructor; [exact Hr | exact Hall]).
        assert (Hex' : retryableRejection last ->
                       attempt + Z.of_nat (S k) = maxAttempts config)
          by (intros Hl; specialize (Hex Hl); lia).
        assert (Hsl' : List.length (slept h')
                       = (List.length (slept h) + S k)%nat)
          by (rewrite Hsl, length_app; cbn; lia).
        assert (Hd' : draws h'
                      = (draws h + (if jitter config then S k else 0))%nat)
          by (rewrite Hd; destruct (jitter config); lia).
        repeat split; auto; lia.
    + injection Hrun as <- <-. exists 0%nat, [], (Rejected e).
      cbn. rewrite Hop.
      repeat split; auto; try lia; try congruence;
        destruct (jitter config); lia.
Qed.

(** X2: under [maxAttempts >= 1], [retry] invokes the operation at least
    once and at most [maxAttempts] times, sleeps exactly once between two
    invocations and never after the last one, draws one random number per
    sleep when the jitter is on and none otherwise, and throws a retryable
    error only when all [maxAttempts] invocations are used up. *)
Theorem retry_counts (options : RetryOptions) (w : W) :
  1 <= maxAttempts (mergeOptions options) ->
  exists c h',
  retry operation random options (startEnv w) = Some (c, h') /\
  (1 <= List.length (results h')
   <= Z.to_nat (maxAttempts (mergeOptions options)))%nat /\
  List.length (slept h') = (List.length (results h') - 1)%nat /\
  draws h' = (if jitter (mergeOptions options)
              then List.length (slept h') else 0%nat) /\
  (forall e, c = Threw e -> isRetryable e = true ->
             List.length (results h')
             = Z.to_nat (maxAttempts (mergeOptions options))).
Proof.
  intros Hpos.
  destruct (retry_terminates operation random options (startEnv w))
    as [[c h'] Hrun].
  exists c, h'. split; [exact Hrun|].
  unfold retry in Hrun.
  apply attempts_trace in Hrun; [|exact Hpos].
  destruct Hrun as (k & earlier & last & Hres & _ & _ & _ & Hc & Hk & Hex
                    & Hsl & Hd).
  cbn [startEnv world results slept draws app] in Hres, Hsl, Hd.
  rewrite Hres, outcomes_length, Hsl, Hd. cbn [List.length Nat.add].
  split; [lia|]. split; [lia|]. split.
  - destruct (jitter _); reflexivity.
  - intros e -> Hr. destruct last as [r|e']; [discriminate|].
    injection Hc as <-. specialize (Hex Hr). lia.
Qed.

Lemma attempts_first_success (config : RetryConfig) (r : R) :
  forall (k fuel : nat) attempt delay lastError h,
    attempt + Z.of_nat k <= maxAttempts config ->
    (k < fuel)%nat ->
    Forall retryableRejection (outcomes operation k (world h)) ->
    fst (operation (worldAfter operation k (world h))) = Resolved r ->
    exists h',
      attempts operation random fuel config attempt delay lastError h
      = Some (Returned r, h') /\
      results h' = (results h ++ outcomes operation (S k) (world h))%list /\
      world h' = worldAfter operation (S k) (world h) /\
      List.length (slept h') = (List.length (slept h) + k)%nat.
Proof.
  induction k as [|k IH];
    intros fuel attempt delay lastError h Hmax Hfuel Hall Hok;
    (destruct fuel as [|fuel]; [lia|]); cbn [attempts];
    (replace (attempt <=? maxAttempts config) with true
      by (symmetry; apply Z.leb_le; lia));
    rewrite invoke_eq.
  - cbn in Hok. rewrite Hok. eexists. split; [reflexivity|].
    cbn. rewrite Hok, Nat.add_0_r. now repeat split.
  - cbn [outcomes] in Hall. inversion Hall as [|s l Hs Hrest]; subst.
    destruct (fst (operation (world h))) as [r0|e] eqn:Hop; [contradiction|].
    cbn in Hs. rewrite Hs. cbn [negb].
    replace (attempt =? maxAttempts config) with false
      by (symmetry; apply Z.eqb_neq; lia).
    cbv zeta.
    match goal with
    | |- context [attempts _ _ _ _ _ ?d ?le ?h2] =>
        destruct (IH fuel (attempt + 1) d le h2)
          as (h' & Hrun & Hres & Hw & Hsl);
        [lia | lia | exact Hrest | exact Hok | rewrite Hrun]
    end.
    exists h'. split; [reflexivity|].
    cbn in Hres, Hw, Hsl |- *.
    rewrite Hres, Hw, Hsl, Hop, <- app_assoc, length_app.
    repeat split. cbn. lia.
Qed.

(** X3: when the first [k] invocations are rejected with retryable errors
    and the next one resolves, with [k < maxAttempts], [retry] returns the
    value of that invocation after exactly [k + 1] invocations and [k]
    sleeps. *)
Theorem retry_returns_first_success
    (options : RetryOptions) (w : W) (k : nat) (r : R) :
  Z.of_nat k < maxAttempts (mergeOptions options) ->
  Forall retryableRejection (outcomes operation k w) ->
  fst (operation (worldAfter operation k w)) = Resolved r ->
  exists h',
    retry operation random options (startEnv w) = Some (Returned r, h') /\
    results h' = outcomes operation (S k) w /\
    world h' = worldAfter operation (S k) w /\
    List.length (slept h') = k.
Proof.
  intros Hk Hall Hok. unfold retry.
  destruct (attempts_first_success (mergeOptions options) r k
              (retryFuel (mergeOptions options)) 1
              (initialDelay (mergeOptions options)) None (startEnv w))
    as (h' & Hrun & Hres & Hw & Hsl); try assumption.
  - lia.
  - unfold retryFuel. lia.
  - exists h'. now repeat split.
Qed.

(** The delays [retry] sleeps, from the sleep number [m] on. *)
Lemma attempts_schedule (config : RetryConfig) :
  forall (fuel : nat) attempt lastError h c h' (m : nat),
    (jitter config = true -> draws h = m) ->
    attempts operation random fuel config attempt (baseDelay config m)
      lastError h = Some (c, h') ->
    exists n,
      slept h'
      = (slept h
         ++ map (fun i => calculateDelay (baseDelay config i) config (random i))
                (seq m n))%list.
Proof.
  induction fuel as [|fuel IH]; intros attempt lastError h c h' m Hd Hrun;
    [discriminate|].
  cbn [attempts] in Hrun.
  destruct (attempt <=? maxAttempts config).
  - rewrite invoke_eq in Hrun.
    destruct (fst (operation (world h))) as [r|e].
    + injection Hrun as <- <-. exists 0%nat. cbn. now rewrite app_nil_r.
    + destruct (negb (isRetryable e)).
      * injection Hrun as <- <-. exists 0%nat. cbn. now rewrite app_nil_r.
      * destruct (attempt =? maxAttempts config).
        -- injection Hrun as <- <-. exists 0%nat. cbn. now rewrite app_nil_r.
        -- change (Qmin (baseDelay config m * backoffFactor config)
                         (maxDelay config))
             with (baseDelay config (S m)) in Hrun.
           apply IH with (m := S m) in Hrun.
           ++ destruct Hrun as [n Hsl]. exists (S n).
              cbn [delayAndSleep slept world results draws] in Hsl.
              rewrite Hsl, <- app_assoc. cbn [seq map app].
              do 2 f_equal. unfold calculateDelay.
              destruct (jitter config) eqn:Hj; cbn [negb]; [|reflexivity].
              now rewrite (Hd eq_refl).
           ++ cbn [delayAndSleep draws]. intros Hj. rewrite Hj.
              now rewrite (Hd Hj).
  - destruct lastError; injection Hrun as <- <-; exists 0%nat; cbn;
      now rewrite app_nil_r.
Qed.

(** The sleeps of a run and its number of invocations. *)
Lemma retry_sleeps
    (options : RetryOptions) (w : W) (c : Completion R) (h' : Env W R) :
  1 <= maxAttempts (mergeOptions options) ->
  retry operation random options (startEnv w) = Some (c, h') ->
  exists n : nat,
    List.length (results h') = S n /\
    Z.of_nat (S n) <= maxAttempts (mergeOptions options) /\
    slept h'
    = map (fun i => calculateDelay (baseDelay (mergeOptions options) i)
                      (mergeOptions options) (random i))
          (seq 0 n).
Proof.
  intros Hpos Hrun. unfold retry in Hrun.
  pose proof Hrun as Htrace.
  apply attempts_trace in Htrace; [|exact Hpos].
  destruct Htrace as (k & _ & _ & Hres & _ & _ & _ & _ & Hk & _ & Hsl & _).
  change (initialDelay (mergeOptions options))
    with (baseDelay (mergeOptions options) 0) in Hrun.
  apply attempts_schedule with (m := 0%nat) in Hrun; [|reflexivity].
  destruct Hrun as [n Hsched]. cbn [startEnv slept results world app] in *.
  assert (n = k)
    by (rewrite Hsched, length_map, length_seq in Hsl; cbn in Hsl; lia).
  subst n. exists k. rewrite Hres, outcomes_length.
  repeat split; [lia | exact Hsched].
Qed.

End RetryRuns.

(** ** The backoff sequence and the jitter *)

(** X5: from the second one on, the delay never exceeds [maxDelay] (the
    first is [initialDelay] as given); and in a configuration with
    [0 <= initialDelay <= maxDelay] and [backoffFactor >= 1] the delays
    never decrease and all lie between [initialDelay] and [maxDelay]. *)
Theorem baseDelay_bounds (config : RetryConfig) (k : nat) :
  (baseDelay config (S k) <= maxDelay config)%Q /\
  ((0 <= initialDelay config)%Q ->
   (initialDelay config <= maxDelay config)%Q ->
   (1 <= backoffFactor config)%Q ->
   (initialDelay config <= baseDelay config k)%Q /\
   (baseDelay config k <= maxDelay config)%Q /\
   (baseDelay config k <= baseDelay config (S k))%Q).
Proof.
  split; [apply Q.le_min_r|]. intros H0 Hmax Hf.
  assert (Hk : forall n, (initialDelay config <= baseDelay config n)%Q /\
                         (baseDelay config n <= maxDelay config)%Q).
  { induction n as [|n [IHlo IHhi]]; cbn [baseDelay]; [split; lra|].
    split; [|apply Q.le_min_r].
    apply Q.min_glb; [|lra].
    assert (baseDelay config n * 1 <= baseDelay config n * backoffFactor config)%Q
      by (apply Qmult_le_l_compat || nra).
    lra. }
  destruct (Hk k) as [Hlo Hhi]. repeat split; try assumption.
  cbn [baseDelay]. apply Q.min_glb; [|exact Hhi].
  assert (baseDelay config k * 1 <= baseDelay config k * backoffFactor config)%Q
    by nra.
  lra.
Qed.

Lemma baseDelay_bounds_witness :
  (baseDelay defaultOptions 1 <= maxDelay defaultOptions)%Q /\
  (initialDelay defaultOptions <= baseDelay defaultOptions 2)%Q /\
  (baseDelay defaultOptions 2 <= maxDelay defaultOptions)%Q /\
  (baseDelay defaultOptions 2 <= baseDelay defaultOptions 3)%Q.
Proof.
  split.
  - exact (proj1 (baseDelay_bounds defaultOptions 0)).
  - apply (proj2 (baseDelay_bounds defaultOptions 2)); cbn; lra.
Defined.

Lemma calculateDelay_jitter_bounds (base : Q) (config : RetryConfig) (r : Q) :
  jitter config = true ->
  (0 <= base)%Q -> (0 <= r)%Q -> (r < 1)%Q ->
  (100 <= calculateDelay base config r)%Q /\
  (0.75 * base <= calculateDelay base config r)%Q /\
  ((80 <= base)%Q -> (calculateDelay base config r <= 1.25 * base)%Q) /\
  ((base <= 80)%Q -> (calculateDelay base config r == 100)%Q).
Proof.
  intros Hj Hb H0 H1. rewrite (calculateDelay_jitter _ _ _ Hj).
  set (d := (base + base * 0.25 * (r - 0.5) * 2)%Q).
  assert (Hlo : (0.75 * base <= d)%Q) by (unfold d; nra).
  assert (Hhi : (d <= 1.25 * base)%Q) by (unfold d; nra).
  destruct (Q.max_spec 100 d) as [[Hc E]|[Hc E]]; rewrite E;
    (split; [|split; [|split]]); try lra; intros; lra.
Qed.

(** X6: the floor of 100 ms belongs to the jitter.  Without jitter
    [calculateDelay] returns the base delay as it is, below 100 too; with
    jitter the result is never below 100, and it is exactly 100 for every
    base delay from 0 to 80 and every draw in [0, 1). *)
Theorem calculateDelay_bounds (base : Q) (config : RetryConfig) (r : Q) :
  (jitter config = false -> calculateDelay base config r = base) /\
  (jitter config = true -> (100 <= calculateDelay base config r)%Q) /\
  (jitter config = true ->
   (0 <= base)%Q -> (base <= 80)%Q -> (0 <= r)%Q -> (r < 1)%Q ->
   (calculateDelay base config r == 100)%Q).
Proof.
  split; [apply calculateDelay_no_jitter|]. split.
  - intros Hj. rewrite (calculateDelay_jitter _ _ _ Hj). apply Q.le_max_l.
  - intros Hj Hb H80 H0 H1.
    now apply (calculateDelay_jitter_bounds base config r Hj Hb H0 H1).
Qed.

Lemma calculateDelay_bounds_witness :
  calculateDelay 50 (mergeOptions scenarioOptions) 0.5 = 50%Q /\
  (100 <= calculateDelay 2000 defaultOptions 0.9)%Q /\
  (calculateDelay 50 defaultOptions 0.9 == 100)%Q.
Proof.
  split; [|split].
  - apply (proj1 (calculateDelay_bounds 50 (mergeOptions scenarioOptions) 0.5)).
    reflexivity.
  - apply (proj1 (proj2 (calculateDelay_bounds 2000 defaultOptions 0.9))).
    reflexivity.
  - apply (proj2 (proj2 (calculateDelay_bounds 50 defaultOptions 0.9)));
      [reflexivity | lra | lra | lra | lra].
Defined.

(** ** [retryGoogleApi] *)

Section WrappedFacts.

Context {W R E : Type}.
Variable clock : nat -> Z.
Variable onSuccessEntry : R -> Z -> E.
Variable onFailureEntry : Error -> Z -> E.
Variable operation : W -> Settled R * W.
Variable random : nat -> Q.

Lemma wrappedOperation_eq (lw : Logged W E) :
  wrappedOperation clock onSuccessEntry onFailureEntry operation lw
  = (fst (operation (inner lw)),
     {| inner := snd (operation (inner lw));
        entries :=
          entries lw
          ++ [entryOf onSuccessEntry onFailureEntry
                (fst (operation (inner lw)))
                (clock (S (clockReads lw)) - clock (clockReads lw))];
        clockReads := S (S (clockReads lw)) |}).
Proof.
  unfold wrappedOperation.
  now destruct (operation (inner lw)) as [[r|e] w'].
Qed.

End WrappedFacts.

(** X8: when every random draw lies in [0, 1), [retryGoogleApi] invokes the
    operation between one and three times, sleeps once between two
    invocations, and sleeps at most 3750 ms in all. *)
Theorem retryGoogleApi_budget {W R : Type}
    (clock : nat -> Z) (random : nat -> Q)
    (operation : W -> Settled R * W) (context : WalletContext) (w : W) :
  (forall i, (0 <= random i)%Q /\ (random i < 1)%Q) ->
  exists c h',
    retryGoogleApi clock random operation context
      (startEnv (startLogged w)) = Some (c, h') /\
    (1 <= List.length (results h') <= 3)%nat /\
    List.length (slept h') = (List.length (results h') - 1)%nat /\
    (totalSleep (slept h') <= 3750)%Q.
Proof.
  intros Hrand. unfold retryGoogleApi.
  destruct (retry_terminates
              (wrappedOperation clock (@walletSuccess R context)
                 (walletFailure context) operation)
              random googleApiOptions (startEnv (startLogged w)))
    as [[c h'] Hrun].
  exists c, h'. split; [exact Hrun|].
  apply retry_sleeps in Hrun; [|cbn; lia].
  destruct Hrun as (n & Hlen & Hn & Hsl).
  change (maxAttempts (mergeOptions googleApiOptions)) with 3 in Hn.
  rewrite Hlen, Hsl, length_map, length_seq.
  split; [lia|]. split; [lia|].
  destruct (Hrand 0%nat) as [A0 B0]. destruct (Hrand 1%nat) as [A1 B1].
  destruct (calculateDelay_jitter_bounds 1000 (mergeOptions googleApiOptions)
              (random 0%nat) eq_refl) as (_ & _ & U0 & _); try lra.
  destruct (calculateDelay_jitter_bounds 2000 (mergeOptions googleApiOptions)
              (random 1%nat) eq_refl) as (_ & _ & U1 & _); try lra.
  specialize (U0 ltac:(lra)). specialize (U1 ltac:(lra)).
  destruct n as [|[|[|n]]]; [| | |lia];
    cbn [seq map totalSleep fold_right];
    change (baseDelay (mergeOptions googleApiOptions) 0) with 1000%Q;
    change (baseDelay (mergeOptions googleApiOptions) 1) with 2000%Q;
    lra.
Qed.

(** ** The logger's reading of an error and the retry predicate *)

Lemma strictEq_Num (v : Value) (n : Z) :
  strictEq v (Num n) = true -> v = Num n.
Proof.
  destruct v as [|m|s]; cbn; try discriminate.
  intros H. apply Z.eqb_eq in H. now subst.
Qed.

Lemma byStatusCode_retryable (sc : Value) (info : Logger.ErrorInfo) :
  Logger.retryable info = false ->
  Logger.retryable (Logger.byStatusCode sc info) = true ->
  exists n, sc = Num n /\ In n retryableStatusCodes.
Proof.
  intros H0. unfold Logger.byStatusCode.
  repeat match goal with
         | |- context [if strictEq sc (Num ?n) then _ else _] =>
             destruct (strictEq sc (Num n)) eqn:?
         end;
    cbn; intros H; try congruence;
    repeat match goal with
           | E : strictEq sc (Num ?n) = true |- _ =>
               apply strictEq_Num in E; exists n; split; [exact E|simpl; tauto]
           end.
  destruct (strictEq sc (Num 502) || strictEq sc (Num 503)
            || strictEq sc (Num 504)) eqn:O; [clear H|congruence].
  apply orb_true_iff in O as [O|O]; [apply orb_true_iff in O as [O|O]|];
    apply strictEq_Num in O; eexists; (split; [exact O|simpl; tauto]).
Qed.

Lemma byMessage_retryable (m : string) (info : Logger.ErrorInfo) :
  Logger.retryable (Logger.byMessage m info) = true ->
  Logger.retryable info = true \/
  includes "quota" m = true \/ includes "limit" m = true.
Proof.
  unfold Logger.byMessage.
  destruct (includes "not found" m); [cbn; auto|].
  destruct (includes "already exists" m); [cbn; auto|].
  destruct (includes "invalid" m); [cbn; auto|].
  destruct (includes "permission" m || includes "access" m); [cbn; auto|].
  destruct (includes "quota" m); [auto|].
  destruct (includes "limit" m); [auto|]. cbn [orb].
  destruct (includes "class id" m); cbn; auto.
Qed.

(** The verdict of the status stage alone. *)
Lemma statusStage_retryable (e : Error) (info : Logger.ErrorInfo) :
  Logger.retryable info = false ->
  Logger.retryable
    (if truthy (Logger.orElse (code e) (status e))
     then Logger.byStatusCode (Logger.orElse (code e) (status e)) info
     else info) = true ->
  isRetryable e = true.
Proof.
  intros H0 H. destruct (truthy (Logger.orElse (code e) (status e)));
    [|congruence].
  apply byStatusCode_retryable in H as (n & Hsc & Hn); [|exact H0].
  apply (isRetryable_numeric e n Hn).
  unfold Logger.orElse in Hsc. destruct (truthy (code e)); auto.
Qed.

(** X10: whenever [interpretGoogleApiError] calls an error retryable,
    [isRetryable] retries it, unless the verdict rests on the word "limit"
    in the message. *)
Theorem interpreted_retryable_is_retried (e : Error) :
  Logger.retryable (Logger.interpretGoogleApiError e) = true ->
  isRetryable e = true \/ containsNoCase "limit" (message e).
Proof.
  unfold Logger.interpretGoogleApiError. cbv zeta.
  destruct (negb (message e =? "")%string) eqn:M; intros H.
  - apply byMessage_retryable in H as [H|[H|H]].
    + left. now apply statusStage_retryable in H.
    + left. apply includes_toLowerCase in H.
      apply (isRetryable_message e "quota"); [simpl; tauto | exact H].
    + right. now apply includes_toLowerCase.
  - left. now apply statusStage_retryable in H.
Qed.

Lemma interpreted_retryable_is_retried_witness :
  isRetryable (createMockGoogleApiError 503 "Backend down") = true \/
  containsNoCase "limit" (message (createMockGoogleApiError 503 "Backend down")).
Proof.
  apply interpreted_retryable_is_retried. reflexivity.
Defined.

Lemma includes_rate_limit (m : string) :
  includes "limit" m = false -> includes "rate limit" m = false.
Proof.
  intros H. destruct (includes "rate limit" m) eqn:E; [|reflexivity].
  apply includes_split in E as (pre & post & ->).
  assert (X : (pre ++ "rate limit" ++ post
               = (pre ++ "rate ") ++ "limit" ++ post)%string).
  { clear H. induction pre as [|c pre IH]; [reflexivity|].
    change (String c pre ++ "rate limit" ++ post)%string
      with (String c (pre ++ "rate limit" ++ post))%string.
    now rewrite IH. }
  rewrite X, includes_append in H. discriminate.
Qed.

Lemma isRetryable_without_keywords (e : Error) :
  (forall kw, In kw verdictKeywords -> ~ containsNoCase kw (message e)) ->
  isRetryable e
  = (truthy (code e) && numIncludes retryableStatusCodes (code e))
    || (truthy (status e) && numIncludes retryableStatusCodes (status e))
    || (strictEq (code e) (Str "ECONNRESET")
        || strictEq (code e) (Str "ENOTFOUND")
        || strictEq (code e) (Str "ECONNREFUSED")
        || strictEq (code e) (Str "ETIMEDOUT")).
Proof.
  intros Hmsg. unfold isRetryable.
  assert (Hk : forall kw, In kw verdictKeywords ->
                          includes kw (toLowerCase (message e)) = false).
  { intros kw Hkw. destruct (includes kw _) eqn:X; [|reflexivity].
    apply includes_toLowerCase in X. now elim (Hmsg kw Hkw). }
  destruct (truthy (code e) && _); [reflexivity|].
  destruct (truthy (status e) && _); [reflexivity|].
  destruct (strictEq (code e) _ || _ || _ || _); [reflexivity|].
  cbn [orb]. destruct (negb _); [|reflexivity]. cbv zeta.
  rewrite (includes_rate_limit _ (Hk "limit" ltac:(simpl; tauto))).
  rewrite !Hk; [reflexivity| | | | |]; simpl; tauto.
Qed.

Lemma byStatusCode_retryable_eq (n : Z) (info : Logger.ErrorInfo) :
  Logger.retryable info = false ->
  Logger.retryable (Logger.byStatusCode (Num n) info)
  = existsb (Z.eqb n) retryableStatusCodes.
Proof.
  intros H0. unfold Logger.byStatusCode. cbn [strictEq].
  destruct (n =? 400) eqn:E1; [apply Z.eqb_eq in E1; now subst|].
  destruct (n =? 401) eqn:E2; [apply Z.eqb_eq in E2; now subst|].
  destruct (n =? 403) eqn:E3; [apply Z.eqb_eq in E3; now subst|].
  destruct (n =? 404) eqn:E4; [apply Z.eqb_eq in E4; now subst|].
  destruct (n =? 409) eqn:E5; [apply Z.eqb_eq in E5; now subst|].
  cbn [existsb retryableStatusCodes].
  destruct (n =? 429); [reflexivity|].
  destruct (n =? 500); [reflexivity|].
  destruct (n =? 502); [reflexivity|].
  destruct (n =? 503); [reflexivity|].
  destruct (n =? 504); [reflexivity|]. exact H0.
Qed.

Lemma byMessage_keeps (m : string) (info : Logger.ErrorInfo) :
  includes "quota" m = false -> includes "limit" m = false ->
  Logger.retryable (Logger.byMessage m info) = Logger.retryable info.
Proof.
  intros Hq Hl. unfold Logger.byMessage. rewrite Hq, Hl. cbn [orb].
  repeat match goal with
         | |- context [if ?b then _ else _] => destruct b
         end; reflexivity.
Qed.

Lemma interpret_without_keywords (e : Error) :
  (forall kw, In kw verdictKeywords -> ~ containsNoCase kw (message e)) ->
  Logger.retryable (Logger.interpretGoogleApiError e)
  = Logger.retryable
      (if truthy (Logger.orElse (code e) (status e))
       then Logger.byStatusCode (Logger.orElse (code e) (status e))
              {| Logger.type := "UNKNOWN_ERROR";
                 Logger.message := message e;
                 Logger.code := code e;
                 Logger.status := status e;
                 Logger.retryable := false;
                 Logger.userMessage := "An unexpected error occurred" |}
       else {| Logger.type := "UNKNOWN_ERROR";
               Logger.message := message e;
               Logger.code := code e;
               Logger.status := status e;
               Logger.retryable := false;
               Logger.userMessage := "An unexpected error occurred" |}).
Proof.
  intros Hmsg. unfold Logger.interpretGoogleApiError. cbv zeta.
  destruct (negb _); [|reflexivity].
  apply byMessage_keeps;
    (destruct (includes _ _) eqn:X; [|reflexivity];
     apply includes_toLowerCase in X; apply Hmsg in X; [contradiction|];
     simpl; tauto).
Qed.

(** X11: on an error shaped like the wallet API's, with the same number as
    code and status, whose message is made of ASCII characters and holds
    none of the words "timeout",
    "network", "connection", "service unavailable", "quota", "limit" in any
    case, the [retryable] flag of [interpretGoogleApiError] is the verdict
    of [isRetryable]. *)
Theorem verdicts_agree (e : Error) (n : Z) :
  code e = Num n -> status e = Num n ->
  isAscii (message e) = true ->
  (forall kw, In kw verdictKeywords -> ~ containsNoCase kw (message e)) ->
  Logger.retryable (Logger.interpretGoogleApiError e) = isRetryable e.
Proof.
  intros Hc Hs _ Hmsg.
  rewrite (interpret_without_keywords e Hmsg),
          (isRetryable_without_keywords e Hmsg), Hc, Hs.
  assert (Hor : Logger.orElse (Num n) (Num n) = Num n)
    by (unfold Logger.orElse; now destruct (truthy _)).
  rewrite Hor. cbn [truthy strictEq numIncludes orb].
  rewrite !orb_false_r, orb_diag.
  destruct (n =? 0) eqn:E; cbn [negb andb]; [reflexivity|].
  now apply byStatusCode_retryable_eq.
Qed.

(** X12: an error with one of the four network codes whose message holds
    none of these words is retried by [retry], yet
    [interpretGoogleApiError] reports it as not retryable. *)
Theorem network_errors_reported_not_retryable (e : Error) (c : string) :
  In c networkCodes -> code e = Str c ->
  (forall kw, In kw verdictKeywords -> ~ containsNoCase kw (message e)) ->
  isRetryable e = true /\
  Logger.retryable (Logger.interpretGoogleApiError e) = false.
Proof.
  intros Hc Hcode Hmsg. split; [exact (isRetryable_network e c Hc Hcode)|].
  rewrite (interpret_without_keywords e Hmsg), Hcode.
  unfold Logger.orElse. simpl in Hc.
  repeat (destruct Hc as [<-|Hc]; [reflexivity|]). contradiction.
Qed.

(** * Further properties of the circuit breaker *)

Section BreakerRuns.

Context {A W R : Type}.
Variable operation : A -> W -> Settled R * W.
Variable config : BreakerConfig.

(** X13: a call of the breaker either is rejected, when the breaker is
    open, with the circuit-open error and without touching the operation or
    the breaker, or invokes the operation exactly once and completes the way
    that invocation settled. *)
Theorem call_outcome (now : Z) (args : A) (b : Breaker) (h : Host W R) :
  (state b = OPEN /\
   call operation config now args b h = (Threw circuitOpenError, b, h)) \/
  (exists b',
     call operation config now args b h
     = (match fst (operation args (hworld h)) with
        | Resolved r => Returned r
        | Rejected e => Threw e
        end,
        b',
        {| hworld := snd (operation args (hworld h));
           hresults := hresults h ++ [fst (operation args (hworld h))] |})).
Proof.
  unfold call. destruct (gate config now (monitor config now b)) as [b2|] eqn:G.
  - right. rewrite invokeWith_eq.
    destruct (fst (operation args (hworld h))); eexists; reflexivity.
  - left. unfold monitor in *.
    destruct (elapsedExceeds now (lastFailureTime b) (monitoringWindow config));
      [discriminate|].
    unfold gate in G. destruct (state b); try discriminate. now split.
Qed.

Lemma call_open_rejected (now t : Z) (args : A) (b : Breaker) (h : Host W R) :
  state b = OPEN -> lastFailureTime b = Some t ->
  now - t <= resetTimeout config -> now - t <= monitoringWindow config ->
  call operation config now args b h = (Threw circuitOpenError, b, h).
Proof.
  intros Hs Hl Hr Hw. unfold call, monitor.
  rewrite Hl, (elapsedExceeds_false now _ (Some t))
    by (intros t' [= <-]; exact Hw).
  unfold gate. rewrite Hs, Hl, (elapsedExceeds_false now _ (Some t))
    by (intros t' [= <-]; exact Hr).
  reflexivity.
Qed.

(** X14: while an open breaker cools down, that is for calls made no more
    than [resetTimeout] and [monitoringWindow] after its last failure, every
    call is rejected with the circuit-open error, and the breaker and the
    operation are after any number of such calls as they were before. *)
Theorem open_breaker_rejects_all
    (t : Z) (cs : list (Z * A)) (b : Breaker) (h : Host W R) :
  state b = OPEN -> lastFailureTime b = Some t ->
  Forall (fun c => fst c - t <= resetTimeout config /\
                   fst c - t <= monitoringWindow config) cs ->
  calls operation config cs b h
  = (map (fun _ => Threw circuitOpenError) cs, b, h).
Proof.
  intros Hs Hl Hall. induction cs as [|[now args] cs IH]; [reflexivity|].
  inversion Hall as [|? ? [Hr Hw] Hrest]; subst. cbn [fst] in Hr, Hw.
  cbn [calls map].
  now rewrite (call_open_rejected now t args b h Hs Hl Hr Hw), (IH Hrest).
Qed.

(** X15: an open breaker whose last failure is more than [resetTimeout]
    but not more than [monitoringWindow] old recovers by two successful
    calls inside the window: both reach the operation, the second needs no
    further wait, and the breaker ends closed with a failure count of 0. *)
Theorem two_successes_close
    (t t1 t2 : Z) (a1 a2 : A) (b : Breaker) (h : Host W R) (r1 r2 : R) :
  state b = OPEN -> lastFailureTime b = Some t -> t <> 0 ->
  resetTimeout config < t1 - t -> t1 - t <= monitoringWindow config ->
  t2 - t <= monitoringWindow config ->
  fst (operation a1 (hworld h)) = Resolved r1 ->
  fst (operation a2 (snd (operation a1 (hworld h)))) = Resolved r2 ->
  calls operation config [(t1, a1); (t2, a2)] b h
  = ([Returned r1; Returned r2],
     {| state := CLOSED; failures := 0;
        lastFailureTime := Some t; successes := 2 |},
     {| hworld := snd (operation a2 (snd (operation a1 (hworld h))));
        hresults := hresults h ++ [Resolved r1; Resolved r2] |}).
Proof.
  intros Hs Hl Ht Hr1 Hw1 Hw2 Ho1 Ho2.
  cbn [calls]. unfold call at 1. unfold monitor.
  rewrite Hl, (elapsedExceeds_false t1 _ (Some t))
    by (intros t' [= <-]; exact Hw1).
  unfold gate. rewrite Hs, Hl, (elapsedExceeds_true _ _ _ Ht Hr1).
  rewrite invokeWith_eq, Ho1. unfold onSuccess. cbn [state successes].
  change (2 <=? 0 + 1) with false. cbv iota.
  unfold call, monitor. cbn [lastFailureTime failures].
  rewrite (elapsedExceeds_false t2 _ (Some t))
    by (intros t' [= <-]; exact Hw2).
  unfold gate. cbn [state]. rewrite invokeWith_eq. cbn [hworld hresults].
  rewrite Ho2. unfold onSuccess. cbn [state successes lastFailureTime].
  change (2 <=? 0 + 1 + 1) with true. cbv iota.
  now rewrite <- app_assoc.
Qed.

Ltac leb_cases :=
  repeat match goal with
         | |- context [?a <=? ?b] =>
             let E := fresh "E" in
             destruct (a <=? b) eqn:E;
             [apply Z.leb_le in E | apply Z.leb_gt in E]
         end.

Ltac breaker_crush :=
  unfold wellFormed, onSuccess, onFailure;
  cbn [state failures lastFailureTime successes];
  repeat match goal with
         | S : state _ = _ |- _ => rewrite S
         end;
  cbn [isHalfOpen orb];
  leb_cases;
  cbn [state failures lastFailureTime successes];
  repeat split; intros; try discriminate; try lia; eauto.

Lemma call_wellFormed
    (now : Z) (args : A) (b : Breaker) (h : Host W R)
    (c : Completion R) (b' : Breaker) (h' : Host W R) :
  1 <= failureThreshold config ->
  wellFormed config b ->
  call operation config now args b h = (c, b', h') ->
  wellFormed config b'.
Proof.
  intros Hth Hwf Hcall. pose proof Hwf as (Hf & Hs & Hopen & Hhalf & Hclosed & Hlft).
  unfold call, monitor, gate in Hcall.
  destruct (elapsedExceeds now (lastFailureTime b) (monitoringWindow config)).
  - cbn [state] in Hcall. rewrite invokeWith_eq in Hcall.
    destruct (fst (operation args (hworld h)));
      injection Hcall as <- <- <-; breaker_crush.
  - destruct (state b) eqn:S.
    + rewrite invokeWith_eq in Hcall.
      destruct (fst (operation args (hworld h)));
        injection Hcall as <- <- <-.
      * unfold onSuccess. now rewrite S.
      * specialize (Hclosed eq_refl). breaker_crush.
    + specialize (Hopen eq_refl).
      destruct (elapsedExceeds now (lastFailureTime b) (resetTimeout config)).
      * rewrite invokeWith_eq in Hcall.
        destruct (fst (operation args (hworld h)));
          injection Hcall as <- <- <-; breaker_crush.
      * injection Hcall as <- <- <-. exact Hwf.
    + destruct (Hhalf eq_refl) as [Hone Hpos].
      rewrite invokeWith_eq in Hcall.
      destruct (fst (operation args (hworld h)));
        injection Hcall as <- <- <-; breaker_crush.
Qed.

(** X16: with [failureThreshold >= 1], whatever calls are made on a new
    breaker, at whatever times: the failure count is never negative, it is
    below the threshold while the breaker is closed and at least 1 while it
    is open or half-open, a last failure time is recorded whenever the count
    is positive, and the half-open success count is 1 between the two
    successes of a recovery. *)
Theorem breaker_invariant (cs : list (Z * A)) (h : Host W R) :
  1 <= failureThreshold config ->
  wellFormed config (snd (fst (calls operation config cs newBreaker h))).
Proof.
  intros Hth.
  assert (Hnew : wellFormed config newBreaker)
    by (unfold wellFormed; cbn; repeat split; intros; try discriminate; lia).
  revert Hnew. generalize newBreaker as b. revert h.
  induction cs as [|[now args] cs IH]; intros h b Hwf; [exact Hwf|].
  cbn [calls].
  destruct (call operation config now args b h) as [[c b1] h1] eqn:C.
  specialize (IH h1 b1 (call_wellFormed _ _ _ _ _ _ _ Hth Hwf C)).
  now destruct (calls operation config cs b1 h1) as [[out1 b2] h2].
Qed.

Lemma call_never_half_open
    (now : Z) (args : A) (b : Breaker) (h : Host W R)
    (c : Completion R) (b' : Breaker) (h' : Host W R) :
  monitoringWindow config <= resetTimeout config ->
  state b <> HALF_OPEN ->
  call operation config now args b h = (c, b', h') ->
  state b' <> HALF_OPEN.
Proof.
  intros Hcfg Hs Hcall. unfold call, monitor, gate in Hcall.
  destruct (elapsedExceeds now (lastFailureTime b) (monitoringWindow config))
    eqn:M.
  - cbn [state] in Hcall. rewrite invokeWith_eq in Hcall.
    destruct (fst (operation args (hworld h)));
      injection Hcall as <- <- <-; unfold onSuccess, onFailure; cbn;
      [congruence | destruct (_ <=? _); congruence].
  - destruct (state b) eqn:S; [| |contradiction].
    + rewrite invokeWith_eq in Hcall.
      destruct (fst (operation args (hworld h)));
        injection Hcall as <- <- <-; unfold onSuccess, onFailure; cbn;
        rewrite S; [congruence | cbn; destruct (_ <=? _); congruence].
    + destruct (elapsedExceeds now (lastFailureTime b) (resetTimeout config))
        eqn:T.
      * exfalso. unfold elapsedExceeds in M, T.
        destruct (lastFailureTime b) as [t|]; [|discriminate].
        apply andb_true_iff in T as [T1 T2]. rewrite T1 in M. cbn in M.
        apply Z.ltb_lt in T2. apply Z.ltb_ge in M. lia.
      * injection Hcall as <- <- <-. now rewrite S.
Qed.

(** X17: when [monitoringWindow <= resetTimeout], a breaker never becomes
    half-open: by the time an open breaker could admit a probe, the
    monitoring window has passed and the breaker is closed outright. *)
Theorem half_open_unreachable (cs : list (Z * A)) (h : Host W R) :
  monitoringWindow config <= resetTimeout config ->
  state (snd (fst (calls operation config cs newBreaker h))) <> HALF_OPEN.
Proof.
  intros Hcfg.
  assert (Hnew : state newBreaker <> HALF_OPEN) by discriminate.
  revert Hnew. generalize newBreaker as b. revert h.
  induction cs as [|[now args] cs IH]; intros h b Hs; [exact Hs|].
  cbn [calls].
  destruct (call operation config now args b h) as [[c b1] h1] eqn:C.
  specialize (IH h1 b1 (call_never_half_open _ _ _ _ _ _ _ Hcfg Hs C)).
  now destruct (calls operation config cs b1 h1) as [[out1 b2] h2].
Qed.

End BreakerRuns.

(** * A caller of the retry utility: [getClass] *)

Section GetClassFacts.

Context {W D : Type}.
Variable clock : nat -> Z.
Variable random : nat -> Q.
Variable get : string -> W -> Settled (GoogleApi.Response D) * W.

(** X18: [getClass] never throws.  It calls the API between one and three
    times and answers from the last call: [success] with the [data] of the
    response when that call resolved; otherwise a failure whose [error] is
    "Class not found" when the error's code is 404 and the type
    [interpretGoogleApiError] gives the error in every other case. *)
Theorem getClass_result (classId : string) (w : W) :
  exists res h' earlier last,
    LoyaltyClass.getClass clock random get classId (startEnv (startLogged w))
    = Some (res, h') /\
    results h' = (earlier ++ [last])%list /\
    (1 <= List.length (results h') <= 3)%nat /\
    match last with
    | Resolved r =>
        LoyaltyClass.success res = true /\
        LoyaltyClass.data res = Some (GoogleApi.data r)
    | Rejected e =>
        LoyaltyClass.success res = false /\
        LoyaltyClass.data res = None /\
        LoyaltyClass.error res
        = Some (if strictEq (code e) (Num 404) then "Class not found"
                else Logger.type (Logger.interpretGoogleApiError e))
    end.
Proof.
  unfold LoyaltyClass.getClass, retryGoogleApi.
  match goal with
  | |- context [retry ?op random googleApiOptions ?h0] =>
      destruct (retry_terminates op random googleApiOptions h0)
        as [[c h'] Hrun]
  end.
  rewrite Hrun. unfold retry in Hrun.
  apply attempts_trace in Hrun; [|cbn; lia].
  destruct Hrun as (k & earlier & last & Hres & _ & Hout & _ & Hc & Hk & _).
  change (maxAttempts (mergeOptions googleApiOptions)) with 3 in Hk.
  cbn [startEnv results app] in Hres.
  assert (Hlen : List.length (results h') = S k)
    by (rewrite Hres; apply outcomes_length).
  rewrite Hout in Hres.
  destruct last as [r|e]; subst c.
  - eexists _, h', earlier, (Resolved r).
    split; [reflexivity|]. split; [exact Hres|]. split; [lia|].
    now split.
  - destruct (strictEq (code e) (Num 404)) eqn:E;
      eexists _, h', earlier, (Rejected e);
      (split; [reflexivity|]); (split; [exact Hres|]); (split; [lia|]);
      rewrite E; now repeat split.
Qed.

(** X19: when the API rejects the first call with an error of code 404 that
    is not retryable, [getClass] answers "Class not found" after this single
    call, without sleeping, and the call is logged as a failed
    getLoyaltyClass operation. *)
Theorem getClass_not_found (classId : string) (w w' : W) (e : Error) :
  get classId w = (Rejected e, w') ->
  code e = Num 404 ->
  isRetryable e = false ->
  exists h',
    LoyaltyClass.getClass clock random get classId (startEnv (startLogged w))
    = Some ({| LoyaltyClass.success := false;
               LoyaltyClass.data := None;
               LoyaltyClass.error := Some "Class not found";
               LoyaltyClass.message := "Loyalty class does not exist" |},
            h') /\
    results h' = [Rejected e] /\
    slept h' = [] /\
    inner (world h') = w' /\
    map weSuccess (entries (world h')) = [false] /\
    map weOperation (entries (world h')) = ["getLoyaltyClass"].
Proof.
  intros Hget Hcode Hr.
  unfold LoyaltyClass.getClass, retryGoogleApi, retry, retryFuel.
  cbn [attempts].
  change (1 <=? maxAttempts (mergeOptions googleApiOptions)) with true.
  cbv iota. rewrite invoke_eq, wrappedOperation_eq.
  cbn [startEnv startLogged world results slept draws inner entries
       clockReads app fst snd].
  rewrite Hget. cbn [fst snd]. rewrite Hr. cbn [negb].
  rewrite Hcode. cbn [strictEq Z.eqb Pos.eqb].
  eexists. split; [reflexivity|]. now repeat split.
Qed.

End GetClassFacts.

(** * The further properties on the mocks *)

Lemma halves_in_range (i : nat) : (0 <= halves i)%Q /\ (halves i < 1)%Q.
Proof. unfold halves. split; lra. Qed.

Lemma no_verdict_keyword (msg : string) :
  forallb (fun kw => negb (includes kw (toLowerCase msg))) verdictKeywords
  = true ->
  forall kw, In kw verdictKeywords -> ~ containsNoCase kw msg.
Proof.
  intros H kw Hkw Hc. apply includes_toLowerCase in Hc.
  rewrite forallb_forall in H. specialize (H kw Hkw).
  rewrite Hc in H. discriminate.
Qed.

Lemma retry_counts_witness :
  exists c h',
    retry (alwaysRejects 503) halves (onlyMaxAttempts 4) (startEnv 0%nat)
    = Some (c, h') /\
    (1 <= List.length (results h')
     <= Z.to_nat (maxAttempts (mergeOptions (onlyMaxAttempts 4))))%nat /\
    List.length (slept h') = (List.length (results h') - 1)%nat /\
    draws h' = (if jitter (mergeOptions (onlyMaxAttempts 4))
                then List.length (slept h') else 0%nat) /\
    (forall e, c = Threw e -> isRetryable e = true ->
               List.length (results h')
               = Z.to_nat (maxAttempts (mergeOptions (onlyMaxAttempts 4)))).
Proof.
  apply (retry_counts (alwaysRejects 503) halves (onlyMaxAttempts 4) 0%nat).
  cbn. lia.
Defined.

Lemma retry_returns_first_success_witness :
  exists h',
    retry failsTwice halves scenarioOptions (startEnv 0%nat)
    = Some (Returned "success", h') /\
    results h' = outcomes failsTwice 3 0%nat /\
    world h' = worldAfter failsTwice 3 0%nat /\
    List.length (slept h') = 2%nat.
Proof.
  apply (retry_returns_first_success failsTwice halves scenarioOptions
           0%nat 2%nat "success").
  - cbn. lia.
  - repeat constructor.
  - reflexivity.
Defined.

Lemma retryGoogleApi_budget_witness :
  exists c h',
    retryGoogleApi ticks halves (alwaysRejects 503)
      {| ctxOperation := Some "createLoyaltyObject"; ctxData := [] |}
      (startEnv (startLogged 0%nat)) = Some (c, h') /\
    (1 <= List.length (results h') <= 3)%nat /\
    List.length (slept h') = (List.length (results h') - 1)%nat /\
    (totalSleep (slept h') <= 3750)%Q.
Proof.
  apply (retryGoogleApi_budget ticks halves (alwaysRejects 503)).
  exact halves_in_range.
Defined.

Lemma verdicts_agree_witness :
  Logger.retryable
    (Logger.interpretGoogleApiError
       (createMockGoogleApiError 503 "Backend down"))
  = isRetryable (createMockGoogleApiError 503 "Backend down").
Proof.
  apply (verdicts_agree _ 503); [reflexivity | reflexivity | reflexivity |].
  apply no_verdict_keyword. reflexivity.
Defined.

Lemma network_errors_reported_not_retryable_witness :
  isRetryable socketError = true /\
  Logger.retryable (Logger.interpretGoogleApiError socketError) = false.
Proof.
  apply (network_errors_reported_not_retryable socketError "ECONNRESET").
  - simpl. tauto.
  - reflexivity.
  - apply no_verdict_keyword. reflexivity.
Defined.

Lemma open_breaker_rejects_all_witness :
  calls alwaysThrows (withThresholdAndReset 3 1000)
    [(1003, tt); (1500, tt); (2002, tt)]
    {| state := OPEN; failures := 3;
       lastFailureTime := Some 1002; successes := 0 |}
    {| hworld := 3%nat; hresults := [] |}
  = ([Threw circuitOpenError; Threw circuitOpenError; Threw circuitOpenError],
     {| state := OPEN; failures := 3;
        lastFailureTime := Some 1002; successes := 0 |},
     {| hworld := 3%nat; hresults := [] |}).
Proof.
  apply (open_breaker_rejects_all alwaysThrows (withThresholdAndReset 3 1000)
           1002 [(1003, tt); (1500, tt); (2002, tt)]);
    [reflexivity | reflexivity |].
  repeat constructor; cbn; lia.
Defined.

Lemma two_successes_close_witness :
  calls throwsTwice (withThresholdAndReset 2 100) [(1151, tt); (1200, tt)]
    {| state := OPEN; failures := 2;
       lastFailureTime := Some 1001; successes := 0 |}
    {| hworld := 2%nat; hresults := [] |}
  = ([Returned "success"; Returned "success"],
     {| state := CLOSED; failures := 0;
        lastFailureTime := Some 1001; successes := 2 |},
     {| hworld := 4%nat;
        hresults := [Resolved "success"; Resolved "success"] |}).
Proof.
  apply (two_successes_close throwsTwice (withThresholdAndReset 2 100)
           1001 1151 1200 tt tt
           {| state := OPEN; failures := 2;
              lastFailureTime := Some 1001; successes := 0 |}
           {| hworld := 2%nat; hresults := [] |} "success" "success");
    try reflexivity; cbn; lia.
Defined.

Lemma breaker_invariant_witness :
  wellFormed (withThreshold 3)
    (snd (fst (calls alwaysThrows (withThreshold 3)
                 [(1000, tt); (1001, tt); (1002, tt); (70000, tt)]
                 newBreaker (startHost 0%nat)))).
Proof.
  apply (breaker_invariant alwaysThrows (withThreshold 3)). cbn. lia.
Defined.

Lemma half_open_unreachable_witness :
  state (snd (fst (calls throwsTwice shortWindow
                     [(1000, tt); (1001, tt); (1400, tt); (2100, tt)]
                     newBreaker (startHost 0%nat))))
  <> HALF_OPEN.
Proof.
  apply (half_open_unreachable throwsTwice shortWindow). cbn. lia.
Defined.

Lemma getClass_not_found_witness :
  exists h',
    LoyaltyClass.getClass ticks halves missingClass "issuer.class_1"
      (startEnv (startLogged 0%nat))
    = Some ({| LoyaltyClass.success := false;
               LoyaltyClass.data := None;
               LoyaltyClass.error := Some "Class not found";
               LoyaltyClass.message := "Loyalty class does not exist" |},
            h') /\
    results h' = [Rejected (createMockGoogleApiError 404 "Class missing")] /\
    slept h' = [] /\
    inner (world h') = 1%nat /\
    map weSuccess (entries (world h')) = [false] /\
    map weOperation (entries (world h')) = ["getLoyaltyClass"].
Proof.
  apply (getClass_not_found ticks halves missingClass "issuer.class_1"
           0%nat 1%nat); reflexivity.
Defined.

(** * The level filter of the logger *)

(** X20: when [LOG_LEVEL] is set to a name of ASCII characters that is,
    in upper case, none of ERROR, WARN, INFO and DEBUG, nothing is logged at
    all, errors included. *)
Theorem unknown_LOG_LEVEL_silences (v level : string) :
  v <> "" ->
  isAscii v = true ->
  LogLevel.levels (LogLevel.toUpperCase v) = None ->
  LogLevel.shouldLog (Some v) level = false.
Proof.
  intros Hv _ Hnone. unfold LogLevel.shouldLog, LogLevel.currentLevel.
  apply String.eqb_neq in Hv. rewrite Hv, Hnone.
  now destruct (LogLevel.levels level).
Qed.

Lemma unknown_LOG_LEVEL_silences_witness :
  LogLevel.shouldLog (Some "verbose") "ERROR" = false.
Proof.
  apply unknown_LOG_LEVEL_silences; [discriminate | reflexivity | reflexivity].
Defined.

(** * [retry] on operations that may reject with [undefined] or [null] *)

Section AnyRetryFacts.

Context {W R : Type}.
Variable operation : W -> Any.Settled R * W.
Variable random : nat -> Q.







(** On the operations that reject with [Error] objects this model is the
    first one. *)
Lemma attempts_of_operation
    (op : W -> Settled R * W) (config : RetryConfig) :
  forall (fuel : nat) attempt delay lastError h,
    Any.attempts (Any.ofOperation op) random fuel config attempt delay
      (match lastError with
       | None => Any.Nothing JsUndefined
       | Some e => Any.Object e
       end) (anyEnv h)
    = match attempts op random fuel config attempt delay lastError h with
      | Some (c, h') => Some (Any.ofCompletion c, anyEnv h')
      | None => None
      end.
Proof.
  induction fuel as [|fuel IH]; intros attempt delay lastError h;
    [reflexivity|].
  cbn [Any.attempts attempts].
  destruct (attempt <=? maxAttempts config).
  - unfold Any.invoke, invoke, Any.ofOperation.
    cbn [anyEnv Any.world Any.results Any.slept Any.draws].
    destruct (op (world h)) as [[r|e] w']; cbn [fst snd Any.ofSettled].
    + unfold anyEnv. cbn. now rewrite map_app.
    + destruct (negb (isRetryable e)).
      * unfold anyEnv. cbn. now rewrite map_app.
      * destruct (attempt =? maxAttempts config).
        -- unfold anyEnv. cbn. now rewrite map_app.
        -- rewrite <- (IH (attempt + 1) _ (Some e)).
           f_equal. unfold anyEnv, Any.delayAndSleep, delayAndSleep. cbn.
           now rewrite map_app.
  - now destruct lastError.
Qed.

Lemma retry_of_operation
    (op : W -> Settled R * W) (options : RetryOptions) (w : W) :
  Any.retry (Any.ofOperation op) random options (Any.startEnv w)
  = match retry op random options (startEnv w) with
    | Some (c, h') => Some (Any.ofCompletion c, anyEnv h')
    | None => None
    end.
Proof.
  unfold Any.retry, retry.
  exact (attempts_of_operation op (mergeOptions options) _ 1 _ None
           (startEnv w)).
Qed.



End AnyRetryFacts.

(** ** [retryGoogleApi] on such operations *)

Section AnyWrappedFacts.

Context {W R : Type}.
Variable operation : W -> Any.Settled R * W.
Variable random : nat -> Q.
Variable clock : nat -> Z.
Variable context : WalletContext.







End AnyWrappedFacts.

(** * [retry] at its preconditions, on the mocks *)

(** C6 as stated fails for [N = 0]: the operation, whose first failure
    would not be retryable, is not invoked at all, and [retry] throws the
    [TypeError] of the undefined [lastError]. *)
Lemma retry_zero_attempts_never_invokes :
  fst (alwaysRejects 400 0%nat)
  = Rejected (createMockGoogleApiError 400 "Mock Google API Error") /\
  isRetryable (createMockGoogleApiError 400 "Mock Google API Error") = false /\
  retry (alwaysRejects 400) halves (onlyMaxAttempts 0) (startEnv 0%nat)
  = Some (Threw undefinedMessageTypeError,
          {| world := 0%nat; results := []; slept := []; draws := 0 |}).
Proof. split; [|split]; reflexivity. Qed.




